(** * Forwarding registry of the virtual-workspace framework

    A verification development for
    [pkg/virtual/framework/forwardingregistry/store.go]: the [Store] that
    forwards Get, List, Watch and Update to a per-tenant dynamic client,
    scoped by a fixed label selector.

    The store is embedded shallowly.  Pure helpers ([toExpression],
    [matches]) are functions.  The operations run in a small monad that
    threads the state of the collaborators (the backing dynamic client and
    whoever else writes to it) together with the log of the calls the store
    made, and that can end in a Go panic. *)

From Stdlib Require Import ZArith QArith_base String List Permutation.
From stdpp Require Import base option list gmap strings fin_maps.

Local Open Scope string_scope.
Local Open Scope list_scope.
Local Open Scope Z_scope.

(** ** Data model *)

(** [schema.GroupResource], [schema.GroupVersionResource],
    [schema.GroupKind] and [schema.GroupVersionKind]. *)
Record GroupResource := mkGroupResource {
  gr_Group : string;
  gr_Resource : string
}.

Record GroupVersionResource := mkGVR {
  gvr_Group : string;
  gvr_Version : string;
  gvr_Resource : string
}.

Record GroupKind := mkGroupKind {
  gk_Group : string;
  gk_Kind : string
}.

Record GroupVersionKind := mkGVK {
  gvk_Group : string;
  gvk_Version : string;
  gvk_Kind : string
}.

Definition GVK_GroupKind (gvk : GroupVersionKind) : GroupKind :=
  mkGroupKind (gvk_Group gvk) (gvk_Kind gvk).

(** [unstructured.Unstructured]: an attribute bag, seen through the typed
    accessors of its envelope ([GetName], [GetNamespace], [GetLabels],
    [GetResourceVersion], [GroupVersionKind]); the rest of the bag is kept
    as an association list. *)
Record Unstructured := mkUnstructured {
  GetName : string;
  GetNamespace : string;
  GetLabels : gmap string string;
  GetResourceVersion : string;
  GroupVersionKindOf : GroupVersionKind;
  Content : list (string * string)
}.

(** [runtime.Object] as the update path meets it: the transform of the
    caller may hand back an [unstructured.Unstructured], an object of
    another representation, or nothing. *)
Inductive RuntimeObject :=
| ObjUnstructured (u : Unstructured)
| ObjTyped (kind : string)
| ObjNil.

(** The type assertion of [obj] to a pointer to [unstructured.Unstructured]. *)
Definition asUnstructured (obj : RuntimeObject) : option Unstructured :=
  match obj with
  | ObjUnstructured u => Some u
  | _ => None
  end.

(** ** Label scope filter *)

(** Indexing a Go [map[string]string]: an absent key reads as the zero
    value, the empty string. *)
Definition go_index (m : gmap string string) (k : string) : string :=
  default "" (m !! k).

(** [fmt.Sprintf("%s=%s", k, v)]. *)
Definition clause (kv : string * string) : string :=
  kv.1 +:+ "=" +:+ kv.2.

(** One round of the loop of [toExpression]. *)
Definition toExpression_step (expr : string) (kv : string * string) : string :=
  let expr := if bool_decide (expr ≠ "") then expr +:+ "," else expr in
  expr +:+ clause kv.

(** [toExpression].  Go visits the entries of a map in an order it leaves
    unspecified, so the function takes that order as [range]: the entries
    of [labelSelect] as the [range] clause yields them in this call.  A nil
    map and an empty map both have length 0. *)
Definition toExpression (labelSelect : option (gmap string string))
    (range : list (string * string)) : string :=
  if bool_decide (size (default ∅ labelSelect) = 0%nat) then ""
  else fold_left toExpression_step range "".

(** What a [range] over the map [labelSelect] may yield. *)
Definition range_of (labelSelect : option (gmap string string))
    (range : list (string * string)) : Prop :=
  range ≡ₚ map_to_list (default ∅ labelSelect).

(** The loop of [matches] over the visited entries: the first entry whose
    value differs from the label of the object ends it with false. *)
Fixpoint matches_loop (range : list (string * string)) (obj : Unstructured) : bool :=
  match range with
  | [] => true
  | (k, v) :: rest =>
      if bool_decide (go_index (GetLabels obj) k ≠ v) then false
      else matches_loop rest obj
  end.

(** [matches], visiting the entries in the order [range]. *)
Definition matches_in (labelSelector : option (gmap string string))
    (range : list (string * string)) (obj : Unstructured) : bool :=
  match labelSelector with
  | None => true
  | Some _ => matches_loop range obj
  end.

(** [matches].  Its result does not depend on the order of the visit
    ([matches_in_range] below), so the canonical enumeration stands for
    any. *)
Definition matches (labelSelector : option (gmap string string))
    (obj : Unstructured) : bool :=
  matches_in labelSelector (map_to_list (default ∅ labelSelector)) obj.

(** ** Errors *)

(** [field.Error], one entry of the [field.ErrorList] a validation hook
    produces. *)
Record FieldError := mkFieldError {
  fe_Field : string;
  fe_Detail : string
}.

(** Modelled from the spec: the error kinds of section 7, which the code
    takes from the API machinery ([kerrors], [fmt]), absent from src.  A
    status error carries its reason and the identity in its details (group,
    kind or resource, name) with the causes of an invalid object; the two
    [fmt.Errorf] sites of the store keep the value they print. *)
Inductive StatusReason :=
| StatusReasonNotFound
| StatusReasonConflict
| StatusReasonInvalid
| StatusReasonOther (reason : string).

Inductive error :=
| StatusError (reason : StatusReason) (group kind name : string)
    (causes : list FieldError)
| ErrNotUnstructured (obj : RuntimeObject)
| ErrNoNamespace (resource : GroupVersionResource)
| ErrOther (msg : string).

(** [kerrors.NewNotFound(qualifiedResource, name)]. *)
Definition NewNotFound (qualifiedResource : GroupResource) (name : string) : error :=
  StatusError StatusReasonNotFound (gr_Group qualifiedResource)
    (gr_Resource qualifiedResource) name [].

(** [kerrors.NewInvalid(qualifiedKind, name, errs)]. *)
Definition NewInvalid (qualifiedKind : GroupKind) (name : string)
    (errs : list FieldError) : error :=
  StatusError StatusReasonInvalid (gk_Group qualifiedKind)
    (gk_Kind qualifiedKind) name errs.

(** [kerrors.NewConflict(qualifiedResource, name, err)], what a backing
    store answers to a write of a stale version. *)
Definition NewConflict (qualifiedResource : GroupResource) (name : string) : error :=
  StatusError StatusReasonConflict (gr_Group qualifiedResource)
    (gr_Resource qualifiedResource) name [].

(** [kerrors.IsConflict] and [kerrors.IsNotFound]. *)
Definition IsConflict (err : error) : bool :=
  match err with
  | StatusError StatusReasonConflict _ _ _ _ => true
  | _ => false
  end.

Definition IsNotFound (err : error) : bool :=
  match err with
  | StatusError StatusReasonNotFound _ _ _ _ => true
  | _ => false
  end.

(** A Go pair [(value, error)] in which exactly one side is set. *)
Inductive result (A : Type) :=
| Ok (a : A)
| Err (e : error).
Arguments Ok {A} a.
Arguments Err {A} e.

(** ** Request context, options, endpoints *)

(** [request.Cluster]: the tenant identity of a request. *)
Record Cluster := mkCluster {
  cl_Name : string;
  cl_Wildcard : bool
}.

(** [logicalcluster.Wildcard], the name that stands for every tenant. *)
Definition logicalcluster_Wildcard : string := "*".

Record RequestInfo := mkRequestInfo {
  Verb : string
}.

(** [context.Context] as the store reads it.  The accessors of the generic
    API server are absent from src, so a context is what they return for
    it: [ValidClusterFrom] (a cluster or an error), [NamespaceFrom] (a
    namespace, if any) and [RequestInfoFrom] (the request metadata, if
    any).  [ctx_id] names the context for cancellation. *)
Record Context := mkContext {
  ctx_id : nat;
  ValidClusterFrom : result Cluster;
  NamespaceFrom : option string;
  RequestInfoFrom : option RequestInfo
}.

(** [metav1.GetOptions], [metav1.UpdateOptions], [metav1.ListOptions]. *)
Record GetOptions := mkGetOptions {
  go_ResourceVersion : string
}.

Record UpdateOptions := mkUpdateOptions {
  uo_DryRun : list string;
  uo_FieldManager : string
}.

Record ListOptions := mkListOptions {
  LabelSelector : string;
  FieldSelector : string;
  lo_ResourceVersion : string
}.

Definition set_LabelSelector (sel : string) (o : ListOptions) : ListOptions :=
  mkListOptions sel (FieldSelector o) (lo_ResourceVersion o).

(** [dynamic.ResourceInterface]: the handle
    [dynamicClusterClient.Cluster(c).Resource(r)], narrowed by
    [.Namespace(ns)] when a namespace is given. *)
Record ResourceInterface := mkResourceInterface {
  ri_Cluster : string;
  ri_Resource : GroupVersionResource;
  ri_Namespace : option string
}.

(** [wait.Backoff]. *)
Record Backoff := mkBackoff {
  Duration : Z;
  Factor : Q;
  Jitter : Q;
  Steps : Z;
  Cap : Z
}.

(** [rest.RESTUpdateStrategy], the two hooks the update path calls.
    [PrepareForUpdate] mutates its arguments in place: it is given the
    candidate and the old object and yields both as it leaves them. *)
Record RESTUpdateStrategy := mkUpdateStrategy {
  PrepareForUpdate : Unstructured -> Unstructured -> Unstructured * Unstructured;
  ValidateUpdate : Unstructured -> Unstructured -> list FieldError
}.

(** [Store], with the fields the operations below read. *)
Record Store := mkStore {
  DefaultQualifiedResource : GroupResource;
  CreateStrategy_NamespaceScoped : bool;
  UpdateStrategy : RESTUpdateStrategy;
  resource : GroupVersionResource;
  subResources : list string;
  patchConflictRetryBackoff : Backoff;
  labelSelector : option (gmap string string);
  stopWatchesCh : nat
}.

(** What [Update] returns: [(runtime.Object, bool, error)]. *)
Record UpdateReturn := mkUpdateReturn {
  ur_obj : option Unstructured;
  ur_created : bool;
  ur_err : option error
}.

(** [getClientResource]. *)
Definition getClientResource (s : Store) (ctx : Context) : result ResourceInterface :=
  match ValidClusterFrom ctx with
  | Err err => Err err
  | Ok cluster =>
      let clusterName :=
        if cl_Wildcard cluster then logicalcluster_Wildcard else cl_Name cluster in
      if CreateStrategy_NamespaceScoped s then
        match NamespaceFrom ctx with
        | Some namespace =>
            Ok (mkResourceInterface clusterName (resource s) (Some namespace))
        | None => Err (ErrNoNamespace (resource s))
        end
      else Ok (mkResourceInterface clusterName (resource s) None)
  end.

(** The selector [List] and [Watch] send: lines 117-121 and 156-160. *)
Definition scopedSelector (s : Store) (range : list (string * string))
    (callerSelector : string) : string :=
  if bool_decide (String.length callerSelector = 0%nat)
  then toExpression (labelSelector s) range
  else callerSelector +:+ "," +:+ toExpression (labelSelector s) range.

(** ** The world the store runs in *)

(** A list and a watch stream as the dynamic client returns them. *)
Record UnstructuredList := mkUnstructuredList {
  Items : list Unstructured
}.

(** [watch.Interface]: the handle of an event stream. *)
Record WatchInterface := mkWatchInterface {
  wi_stream : nat
}.

(** The calls the store makes on its collaborators, as they are logged. *)
Inductive Event :=
| EvGet (ri : ResourceInterface) (name : string) (opts : GetOptions)
    (subs : list string) (res : result Unstructured)
| EvList (ri : ResourceInterface) (opts : ListOptions)
| EvWatch (ri : ResourceInterface) (watchCtx : nat) (opts : ListOptions)
    (res : result WatchInterface)
| EvUpdate (ri : ResourceInterface) (obj : Unstructured) (opts : UpdateOptions)
    (subs : list string) (res : result Unstructured)
| EvSleep (delay : Z).

(** The goroutine [Watch] starts: a select over the stop channel and the
    Done channel of the context of the caller; [wt_cancels] is the context
    its [cancelFn] cancels. *)
Inductive WaiterState := Selecting | Exited.

Record Waiter := mkWaiter {
  wt_stop : nat;
  wt_ctx : nat;
  wt_cancels : nat;
  wt_state : WaiterState
}.

(** A context made by [context.WithCancel]: its parent, a context of a
    caller, and whether its [cancelFn] was called. *)
Record DerivedContext := mkDerivedContext {
  dc_parent : nat;
  dc_cancelled : bool
}.

(** The part of the Go runtime [Watch] touches: the derived contexts (a
    derived context is named by its index in [contexts]), the contexts of
    callers that have ended, the closed channels and the goroutines. *)
Record Runtime := mkRuntime {
  contexts : list DerivedContext;
  ended : gset nat;
  closed : gset nat;
  goroutines : list Waiter
}.

(** [dynamic.ClusterInterface] through the handle it resolves to: each call
    answers from the state [Env] of the backing store and may change it.
    Writes of other clients between two calls of the store are part of the
    transition of the later call.  [Get], [List] and [Update] are handed the
    context of the caller and [Watch] the derived one, as the store passes
    them, so an answer may depend on the context it comes with. *)
Class DynamicClient (Env : Type) := {
  dyn_Get : Context -> ResourceInterface -> string -> GetOptions -> list string ->
            Env -> result Unstructured * Env;
  dyn_List : Context -> ResourceInterface -> ListOptions ->
             Env -> result UnstructuredList * Env;
  dyn_Watch : ResourceInterface -> nat -> ListOptions ->
              Env -> result WatchInterface * Env;
  dyn_Update : Context -> ResourceInterface -> Unstructured -> UpdateOptions ->
               list string -> Env -> result Unstructured * Env
}.

Record World (Env : Type) := mkWorld {
  env : Env;
  calls : list Event;
  rt : Runtime
}.
Arguments mkWorld {Env} env calls rt.
Arguments env {Env} w.
Arguments calls {Env} w.
Arguments rt {Env} w.

(** How a call ends: it returns, or it panics. *)
Inductive Outcome (A : Type) :=
| Returns (a : A)
| Panics (msg : string).
Arguments Returns {A} a.
Arguments Panics {A} msg.

Definition M (Env A : Type) : Type := World Env -> Outcome A * World Env.

Definition ret {Env A} (a : A) : M Env A := fun w => (Returns a, w).

Definition bind {Env A B} (m : M Env A) (k : A -> M Env B) : M Env B :=
  fun w =>
    match m w with
    | (Returns a, w') => k a w'
    | (Panics msg, w') => (Panics msg, w')
    end.

Definition panic {Env A} (msg : string) : M Env A := fun w => (Panics msg, w).

Notation "'do' x <- m ;; k" := (bind m (fun x => k))
  (at level 10, x name, m at level 99, k at level 200).

Definition log {Env} (ev : Event) (w : World Env) : World Env :=
  mkWorld (env w) (calls w ++ [ev]) (rt w).

Section Client.
Context {Env : Type} `{DynamicClient Env}.

(** [delegate.Get(ctx, name, opts, subResources...)]. *)
Definition call_Get (ctx : Context) (delegate : ResourceInterface) (name : string)
    (opts : GetOptions) (subs : list string) : M Env (result Unstructured) :=
  fun w =>
    let '(res, e) := dyn_Get ctx delegate name opts subs (env w) in
    (Returns res, log (EvGet delegate name opts subs res) (mkWorld e (calls w) (rt w))).

(** [delegate.List(ctx, opts)]. *)
Definition call_List (ctx : Context) (delegate : ResourceInterface)
    (opts : ListOptions)
    : M Env (result UnstructuredList) :=
  fun w =>
    let '(res, e) := dyn_List ctx delegate opts (env w) in
    (Returns res, log (EvList delegate opts) (mkWorld e (calls w) (rt w))).

(** [delegate.Watch(watchCtx, opts)]. *)
Definition call_Watch (delegate : ResourceInterface) (watchCtx : nat)
    (opts : ListOptions) : M Env (result WatchInterface) :=
  fun w =>
    let '(res, e) := dyn_Watch delegate watchCtx opts (env w) in
    (Returns res, log (EvWatch delegate watchCtx opts res) (mkWorld e (calls w) (rt w))).

(** [delegate.Update(ctx, obj, opts, subResources...)]. *)
Definition call_Update (ctx : Context) (delegate : ResourceInterface)
    (obj : Unstructured) (opts : UpdateOptions) (subs : list string)
    : M Env (result Unstructured) :=
  fun w =>
    let '(res, e) := dyn_Update ctx delegate obj opts subs (env w) in
    (Returns res, log (EvUpdate delegate obj opts subs res) (mkWorld e (calls w) (rt w))).

(** [time.Sleep(delay)] of the retry driver. *)
Definition sleep (delay : Z) : M Env unit :=
  fun w => (Returns tt, log (EvSleep delay) w).
End Client.

(** ** Contexts and goroutines *)

(** Whether the Done channel of a derived context is closed: its
    [cancelFn] was called, or its parent has ended. *)
Definition derived_done (r : Runtime) (watchCtx : nat) : bool :=
  match contexts r !! watchCtx with
  | Some d => dc_cancelled d || bool_decide (dc_parent d ∈ ended r)
  | None => false
  end.

Definition cancel_context (d : DerivedContext) : DerivedContext :=
  mkDerivedContext (dc_parent d) true.

Definition exit_waiter (g : Waiter) : Waiter :=
  mkWaiter (wt_stop g) (wt_ctx g) (wt_cancels g) Exited.

(** [cancelFn()] of the derived context [watchCtx]. *)
Definition cancelFn (watchCtx : nat) (r : Runtime) : Runtime :=
  mkRuntime (alter cancel_context watchCtx (contexts r)) (ended r) (closed r)
    (goroutines r).

(** The goroutine [i] leaves its select and ends. *)
Definition waiter_exits (i : nat) (r : Runtime) : Runtime :=
  mkRuntime (contexts r) (ended r) (closed r) (alter exit_waiter i (goroutines r)).

(** A goroutine of [Watch] takes a ready case of its select (lines
    164-169): on the stop channel it calls [cancelFn] and ends, on the Done
    channel of the caller it just ends. *)
Inductive waiter_step (i : nat) : Runtime -> Runtime -> Prop :=
| waiter_stop (g : Waiter) (r : Runtime) :
    goroutines r !! i = Some g ->
    wt_state g = Selecting ->
    wt_stop g ∈ closed r ->
    waiter_step i r (waiter_exits i (cancelFn (wt_cancels g) r))
| waiter_done (g : Waiter) (r : Runtime) :
    goroutines r !! i = Some g ->
    wt_state g = Selecting ->
    wt_ctx g ∈ ended r ->
    waiter_step i r (waiter_exits i r).

(** What lines 162-170 of [Watch] do to the runtime: a context derived
    from the context of the caller, and a goroutine that waits for it. *)
Definition watch_setup (stop ctx : nat) (r : Runtime) : Runtime :=
  mkRuntime (contexts r ++ [mkDerivedContext ctx false]) (ended r) (closed r)
    (goroutines r ++ [mkWaiter stop ctx (length (contexts r)) Selecting]).

(** What can happen around a watch: somebody closes a channel, the context
    of a caller ends, another [Watch] is called, or a goroutine moves. *)
Inductive rt_step : Runtime -> Runtime -> Prop :=
| step_close (ch : nat) (r : Runtime) :
    rt_step r (mkRuntime (contexts r) (ended r) ({[ch]} ∪ closed r) (goroutines r))
| step_ctx_ends (c : nat) (r : Runtime) :
    rt_step r (mkRuntime (contexts r) ({[c]} ∪ ended r) (closed r) (goroutines r))
| step_watch (stop ctx : nat) (r : Runtime) :
    rt_step r (watch_setup stop ctx r)
| step_waiter (i : nat) (r r' : Runtime) :
    waiter_step i r r' -> rt_step r r'.

Section Runtime.
Context {Env : Type}.

(** [context.WithCancel(ctx)]: a fresh derived context. *)
Definition WithCancel (ctx : nat) : M Env nat :=
  fun w =>
    let r := rt w in
    (Returns (length (contexts r)),
     mkWorld (env w) (calls w)
       (mkRuntime (contexts r ++ [mkDerivedContext ctx false]) (ended r)
          (closed r) (goroutines r))).

(** The [go] statement. *)
Definition go (g : Waiter) : M Env unit :=
  fun w =>
    let r := rt w in
    (Returns tt,
     mkWorld (env w) (calls w)
       (mkRuntime (contexts r) (ended r) (closed r) (goroutines r ++ [g]))).
End Runtime.

(** ** The operations of the store *)

Definition nil_dereference : string :=
  "runtime error: invalid memory address or nil pointer dereference".

(** [rest.UpdatedObjectInfo], [rest.ValidateObjectFunc] and
    [rest.ValidateObjectUpdateFunc]. *)
Definition UpdatedObjectInfo : Type := Unstructured -> result RuntimeObject.
Definition ValidateObjectFunc : Type := RuntimeObject -> option error.
Definition ValidateObjectUpdateFunc : Type :=
  Unstructured -> Unstructured -> option error.

Record CreateOptions := mkCreateOptions {
  co_DryRun : list string
}.

Record DeleteOptions := mkDeleteOptions {
  do_GracePeriodSeconds : option Z
}.

Section Registry.
Context {Env : Type} `{DynamicClient Env}.

(** [metainternalversion.ListOptions] and its generated conversion to
    [metav1.ListOptions], both of the API machinery. *)
Variable InternalListOptions : Type.
Variable Convert_internalversion_ListOptions_To_v1_ListOptions :
  InternalListOptions -> result ListOptions.

(** Modelled from the spec: the delay the Backoff Policy computes before
    retry number [n] ([wait.Backoff.Step], absent from src). *)
Variable computed_delay : Backoff -> nat -> Z.

(** [List], lines 106-124. *)
Definition List (s : Store) (range : list (string * string)) (ctx : Context)
    (options : InternalListOptions) : M Env (result UnstructuredList) :=
  match Convert_internalversion_ListOptions_To_v1_ListOptions options with
  | Err err => ret (Err err)
  | Ok v1ListOptions =>
      match getClientResource s ctx with
      | Err err => ret (Err err)
      | Ok delegate =>
          let v1ListOptions :=
            set_LabelSelector
              (scopedSelector s range (LabelSelector v1ListOptions))
              v1ListOptions in
          call_List ctx delegate v1ListOptions
      end
  end.

(** [Get], lines 127-143. *)
Definition Get (s : Store) (ctx : Context) (name : string)
    (options : option GetOptions) : M Env (result Unstructured) :=
  match getClientResource s ctx with
  | Err err => ret (Err err)
  | Ok delegate =>
      match options with
      | None => panic nil_dereference
      | Some opts =>
          do r <- call_Get ctx delegate name opts (subResources s) ;;
          match r with
          | Err err => ret (Err err)
          | Ok obj =>
              if negb (matches (labelSelector s) obj)
              then ret (Err (NewNotFound (DefaultQualifiedResource s) name))
              else ret (Ok obj)
          end
      end
  end.

(** [Watch], lines 146-173. *)
Definition Watch (s : Store) (range : list (string * string)) (ctx : Context)
    (options : InternalListOptions) : M Env (result WatchInterface) :=
  match Convert_internalversion_ListOptions_To_v1_ListOptions options with
  | Err err => ret (Err err)
  | Ok v1ListOptions =>
      match getClientResource s ctx with
      | Err err => ret (Err err)
      | Ok delegate =>
          let v1ListOptions :=
            set_LabelSelector
              (scopedSelector s range (LabelSelector v1ListOptions))
              v1ListOptions in
          do watchCtx <- WithCancel (ctx_id ctx) ;;
          do _ <- go (mkWaiter (stopWatchesCh s) (ctx_id ctx) watchCtx Selecting) ;;
          call_Watch delegate watchCtx v1ListOptions
      end
  end.

(** Modelled from the spec: the Conflict Retry Driver of section 4.5
    ([retry.RetryOnConflict] of the client library, absent from src).  In
    state attempting it executes the unit [fn] once.  A failure of the
    version-conflict kind consults the policy: if attempts remain it
    sleeps the computed delay and attempts again, otherwise it is done and
    reports this last conflict.  Any other failure, and success, end it at
    once.  [fn] is a Go closure: [cap] is the variable it captures and
    assigns.  [remaining] counts the attempts left after this one and
    [n] the retries made so far. *)
Fixpoint attempting {S : Type} (remaining n : nat) (backoff : Backoff)
    (fn : S -> M Env (S * option error)) (cap : S) : M Env (S * option error) :=
  do r <- fn cap ;;
  match r.2 with
  | None => ret r
  | Some err =>
      if IsConflict err then
        match remaining with
        | O => ret r
        | Datatypes.S remaining' =>
            do _ <- sleep (computed_delay backoff n) ;;
            attempting remaining' (Datatypes.S n) backoff fn r.1
        end
      else ret r
  end.

(** Modelled from the spec: the entry of the driver; the policy allows
    [Steps] attempts, the one on entry included. *)
Definition RetryOnConflict {S : Type} (backoff : Backoff)
    (fn : S -> M Env (S * option error)) (cap : S) : M Env (S * option error) :=
  attempting (Z.to_nat (Steps backoff) - 1) 0 backoff fn cap.

(** The closure [doUpdate] of [Update], lines 182-207; [delegate] is the
    endpoint [Update] resolved before it. *)
Definition doUpdate (s : Store) (ctx : Context) (name : string)
    (objInfo : UpdatedObjectInfo) (updateValidation : ValidateObjectUpdateFunc)
    (options : option UpdateOptions) (delegate : ResourceInterface)
    : M Env (result Unstructured) :=
  do r <- Get s ctx name (Some (mkGetOptions "")) ;;
  match r with
  | Err err => ret (Err err)
  | Ok oldObj =>
      match objInfo oldObj with
      | Err err => ret (Err err)
      | Ok obj =>
          match asUnstructured obj with
          | None => ret (Err (ErrNotUnstructured obj))
          | Some unstructuredObj =>
              let prepared :=
                PrepareForUpdate (UpdateStrategy s) unstructuredObj oldObj in
              let unstructuredObj := prepared.1 in
              let oldObj := prepared.2 in
              let errs := ValidateUpdate (UpdateStrategy s) unstructuredObj oldObj in
              if bool_decide (0 < length errs)%nat then
                ret (Err (NewInvalid
                            (GVK_GroupKind (GroupVersionKindOf unstructuredObj))
                            (GetName unstructuredObj) errs))
              else
                match updateValidation unstructuredObj oldObj with
                | Some err => ret (Err err)
                | None =>
                    match options with
                    | None => panic nil_dereference
                    | Some opts =>
                        call_Update ctx delegate unstructuredObj opts (subResources s)
                    end
                end
          end
      end
  end.

(** A Go pair [(result, err)] from a [result]. *)
Definition go_pair {A : Type} (r : result A) : option A * option error :=
  match r with
  | Ok a => (Some a, None)
  | Err err => (None, Some err)
  end.

(** [Update], lines 176-222. *)
Definition Update (s : Store) (ctx : Context) (name : string)
    (objInfo : UpdatedObjectInfo) (createValidation : ValidateObjectFunc)
    (updateValidation : ValidateObjectUpdateFunc) (forceAllowCreate : bool)
    (options : option UpdateOptions) : M Env UpdateReturn :=
  match getClientResource s ctx with
  | Err err => ret (mkUpdateReturn None false (Some err))
  | Ok delegate =>
      let doUpdate :=
        doUpdate s ctx name objInfo updateValidation options delegate in
      if match RequestInfoFrom ctx with
         | Some requestInfo => bool_decide (Verb requestInfo = "patch")
         | None => false
         end
      then
        do r <- RetryOnConflict (patchConflictRetryBackoff s)
                  (fun _ : option Unstructured =>
                     do r <- doUpdate ;; ret (go_pair r))
                  None ;;
        ret (mkUpdateReturn r.1 false r.2)
      else
        do r <- doUpdate ;;
        let r := go_pair r in
        ret (mkUpdateReturn r.1 false r.2)
  end.

(** [Create], [Delete] and [DeleteCollection], lines 224-237. *)
Definition Create (s : Store) (ctx : Context) (obj : RuntimeObject)
    (createValidation : ValidateObjectFunc) (options : option CreateOptions)
    : M Env (result RuntimeObject) :=
  panic "implement me".

Definition Delete (s : Store) (ctx : Context) (name : string)
    (deleteValidation : ValidateObjectFunc) (options : option DeleteOptions)
    : M Env (option RuntimeObject * bool * option error) :=
  panic "implement me".

Definition DeleteCollection (s : Store) (ctx : Context)
    (deleteValidation : ValidateObjectFunc) (options : option DeleteOptions)
    (listOptions : InternalListOptions) : M Env (result RuntimeObject) :=
  panic "implement me".
End Registry.

(** ** A backing store to run the operations on

    A small versioned store, used to evaluate the operations on concrete
    requests.  A read returns the stored object and lets the next write of
    a rival client land right after it; a write is accepted when it carries
    the stored resource version and answered with a conflict otherwise. *)
Module Sim.
Record SimEnv := mkSim {
  objects : gmap string Unstructured;
  rivals : list Unstructured;
  watch_refused : bool
}.

Definition qualified (ri : ResourceInterface) : GroupResource :=
  mkGroupResource (gvr_Group (ri_Resource ri)) (gvr_Resource (ri_Resource ri)).

Definition land_rival (e : SimEnv) : SimEnv :=
  match rivals e with
  | [] => e
  | r :: rest => mkSim (<[GetName r := r]> (objects e)) rest (watch_refused e)
  end.

Definition bump (obj : Unstructured) : Unstructured :=
  mkUnstructured (GetName obj) (GetNamespace obj) (GetLabels obj)
    (GetResourceVersion obj +:+ "+") (GroupVersionKindOf obj) (Content obj).

Definition sim_Get (ctx : Context) (ri : ResourceInterface) (name : string)
    (opts : GetOptions) (subs : list string) (e : SimEnv)
    : result Unstructured * SimEnv :=
  match objects e !! name with
  | Some obj => (Ok obj, land_rival e)
  | None => (Err (NewNotFound (qualified ri) name), e)
  end.

Definition sim_List (ctx : Context) (ri : ResourceInterface) (opts : ListOptions)
    (e : SimEnv) : result UnstructuredList * SimEnv :=
  (Ok (mkUnstructuredList (map snd (map_to_list (objects e)))), e).

Definition sim_Watch (ri : ResourceInterface) (watchCtx : nat)
    (opts : ListOptions) (e : SimEnv) : result WatchInterface * SimEnv :=
  if watch_refused e then (Err (ErrOther "watch refused"), e)
  else (Ok (mkWatchInterface watchCtx), e).

Definition sim_Update (ctx : Context) (ri : ResourceInterface)
    (obj : Unstructured) (opts : UpdateOptions) (subs : list string) (e : SimEnv)
    : result Unstructured * SimEnv :=
  match objects e !! GetName obj with
  | Some cur =>
      if bool_decide (GetResourceVersion cur = GetResourceVersion obj) then
        (Ok (bump obj),
         mkSim (<[GetName obj := bump obj]> (objects e)) (rivals e) (watch_refused e))
      else (Err (NewConflict (qualified ri) (GetName obj)), e)
  | None => (Err (NewNotFound (qualified ri) (GetName obj)), e)
  end.

#[export] Instance sim_client : DynamicClient SimEnv := {
  dyn_Get := sim_Get;
  dyn_List := sim_List;
  dyn_Watch := sim_Watch;
  dyn_Update := sim_Update
}.

(** The conversion of list options: here the internal options are the
    [metav1] ones. *)
Definition convert (o : ListOptions) : result ListOptions := Ok o.

(** An exponential schedule without jitter. *)
Definition delay (b : Backoff) (n : nat) : Z :=
  Z.min (Cap b) (Duration b * 2 ^ Z.of_nat n).

Definition gvk : GroupVersionKind := mkGVK "apps" "v1" "Deployment".
Definition gvr : GroupVersionResource := mkGVR "apps" "v1" "deployments".

Definition object (name env_label version : string) : Unstructured :=
  mkUnstructured name "default" {[ "env" := env_label ]} version gvk [].

Definition X : Unstructured := object "X" "prod" "1".
Definition Y : Unstructured := object "Y" "dev" "1".
(** An object without any label. *)
Definition bare : Unstructured := mkUnstructured "Z" "default" ∅ "1" gvk [].

Definition strategy : RESTUpdateStrategy :=
  mkUpdateStrategy (fun obj old => (obj, old)) (fun _ _ => []).

Definition backoff : Backoff := mkBackoff 10 (2 # 1) (0 # 1) 3 1000.

Definition store (scope : option (gmap string string)) : Store :=
  mkStore (mkGroupResource "apps" "deployments") false strategy gvr [] backoff
    scope 0%nat.

Definition prod : option (gmap string string) := Some {[ "env" := "prod" ]}.

Definition context (cluster : Cluster) (verb : string) : Context :=
  mkContext 0 (Ok cluster) None (Some (mkRequestInfo verb)).

Definition tenant : Cluster := mkCluster "root:org:ws" false.
Definition wildcard : Cluster := mkCluster "" true.

Definition runtime0 : Runtime := mkRuntime [] ∅ ∅ [].

Definition world (objs : list Unstructured) (rivals : list Unstructured)
    (refused : bool) : World SimEnv :=
  mkWorld (mkSim (list_to_map (map (fun o => (GetName o, o)) objs)) rivals refused)
    [] runtime0.

(** The transform of a patch: it sets the label [tier]. *)
Definition set_tier (old : Unstructured) : result RuntimeObject :=
  Ok (ObjUnstructured
        (mkUnstructured (GetName old) (GetNamespace old)
           (<[ "tier" := "web" ]> (GetLabels old)) (GetResourceVersion old)
           (GroupVersionKindOf old) (Content old))).

Definition accept : ValidateObjectUpdateFunc := fun _ _ => None.
Definition accept_create : ValidateObjectFunc := fun _ => None.
Definition update_options : option UpdateOptions := Some (mkUpdateOptions [] "").
Definition list_options (sel : string) : ListOptions := mkListOptions sel "" "".
End Sim.

(** ** Vocabulary of the statements *)

(** [sub] occurs in [s]. *)
Definition contains (s sub : string) : Prop :=
  ∃ pre post : string, s = pre +:+ sub +:+ post.

(** The clauses of a label scope, comma-joined in the order of the visit. *)
Definition joined (range : list (string * string)) : string :=
  String.concat "," (map clause range).

(** An outcome that is a failure of the version-conflict kind. *)
Definition conflicted {A : Type} (out : Outcome (result A)) : bool :=
  match out with
  | Returns (Err err) => IsConflict err
  | _ => false
  end.

(** What [Update] makes of the outcome of the unit it ran last. *)
Definition update_return (out : Outcome (result Unstructured)) : Outcome UpdateReturn :=
  match out with
  | Returns r => Returns (mkUpdateReturn (go_pair r).1 false (go_pair r).2)
  | Panics msg => Panics msg
  end.

Section Attempts.
Context {Env : Type}.
Variable computed_delay : Backoff -> nat -> Z.
Variable backoff : Backoff.
Variable unit : M Env (result Unstructured).

(** The world in which attempt number [n] of the unit starts: the first
    one in the world of the call, each later one in the world the
    attempt before it left, after the sleep. *)
Fixpoint attempt_world (n : nat) (w : World Env) : World Env :=
  match n with
  | O => w
  | Datatypes.S n' =>
      log (EvSleep (computed_delay backoff n')) (unit (attempt_world n' w)).2
  end.
End Attempts.

(** What one read-modify-write cycle comes to: what it answers, the calls
    it made on the backing store, and the state it left the backing store
    in. *)
Record Cycle (Env : Type) := mkCycle {
  cy_out : Outcome (result Unstructured);
  cy_calls : list Event;
  cy_env : Env
}.
Arguments mkCycle {Env} cy_out cy_calls cy_env.
Arguments cy_out {Env} c.
Arguments cy_calls {Env} c.
Arguments cy_env {Env} c.

Section Cycles.
Context {Env : Type} `{DynamicClient Env}.
Variable computed_delay : Backoff -> nat -> Z.
Variable s : Store.
Variable ctx : Context.
Variable name : string.
Variable objInfo : UpdatedObjectInfo.
Variable updateValidation : ValidateObjectUpdateFunc.
Variable options : option UpdateOptions.
Variable delegate : ResourceInterface.

(** Written from the words of section 4.4 of the specification, to be
    compared with [doUpdate]: one read-modify-write cycle on the backing
    state [e].  It gets the current object from the backing store and
    applies the label scope to it; applies the transform of the caller and
    rejects a result that is not an unstructured object; runs the
    pre-update hook and the validation hook of the strategy, whose failures
    make one invalid error that names the kind and the name of the
    candidate; runs the validation of the caller; and forwards the write of
    the candidate to the backing store, whose answer is the answer of the
    cycle.  Every rejection ends the cycle after the read.  Nil options
    end it in a panic where the write would dereference them. *)
Definition read_modify_write (e : Env) : Cycle Env :=
  let read := dyn_Get ctx delegate name (mkGetOptions "") (subResources s) e in
  let got := EvGet delegate name (mkGetOptions "") (subResources s) read.1 in
  let rejected := fun err : error => mkCycle (Returns (Err err)) [got] read.2 in
  match read.1 with
  | Err err => rejected err
  | Ok current =>
      if matches (labelSelector s) current then
        match objInfo current with
        | Err err => rejected err
        | Ok (ObjUnstructured transformed) =>
            let candidate :=
              (PrepareForUpdate (UpdateStrategy s) transformed current).1 in
            let old :=
              (PrepareForUpdate (UpdateStrategy s) transformed current).2 in
            match ValidateUpdate (UpdateStrategy s) candidate old with
            | [] =>
                match updateValidation candidate old with
                | Some err => rejected err
                | None =>
                    match options with
                    | Some opts =>
                        let write :=
                          dyn_Update ctx delegate candidate opts (subResources s)
                            read.2 in
                        mkCycle (Returns write.1)
                          [got;
                           EvUpdate delegate candidate opts (subResources s)
                             write.1]
                          write.2
                    | None => mkCycle (Panics nil_dereference) [got] read.2
                    end
                end
            | failure :: failures =>
                rejected
                  (NewInvalid (GVK_GroupKind (GroupVersionKindOf candidate))
                     (GetName candidate) (failure :: failures))
            end
        | Ok other => rejected (ErrNotUnstructured other)
        end
      else rejected (NewNotFound (DefaultQualifiedResource s) name)
  end.

(** The state of the backing store in which attempt number [n] starts:
    the one the attempt before it left. *)
Fixpoint attempt_env (n : nat) (e : Env) : Env :=
  match n with
  | O => e
  | Datatypes.S n' => cy_env (read_modify_write (attempt_env n' e))
  end.

(** Attempt number [n], from the state of the backing store [e] in which
    the first one starts. *)
Definition attempt (n : nat) (e : Env) : Cycle Env :=
  read_modify_write (attempt_env n e).

(** The calls of the attempts up to number [k]: those of each attempt,
    and between two attempts the sleep of the delay computed for that
    retry. *)
Fixpoint attempts_calls (k : nat) (e : Env) : list Event :=
  match k with
  | O => cy_calls (attempt 0 e)
  | Datatypes.S k' =>
      attempts_calls k' e
      ++ EvSleep (computed_delay (patchConflictRetryBackoff s) k')
         :: cy_calls (attempt (Datatypes.S k') e)
  end.
End Cycles.

(** The events of one read-modify-write unit on [delegate]: a read of
    [name], then at most the write of an object computed from an object
    that read returned and that lies in the label scope. *)
Inductive unit_trace (s : Store) (delegate : ResourceInterface) (name : string)
    : list Event -> Prop :=
| unit_read (res : result Unstructured) :
    unit_trace s delegate name
      [EvGet delegate name (mkGetOptions "") (subResources s) res]
| unit_read_write (old obj : Unstructured) (opts : UpdateOptions)
    (res : result Unstructured) :
    matches (labelSelector s) old = true ->
    unit_trace s delegate name
      [EvGet delegate name (mkGetOptions "") (subResources s) (Ok old);
       EvUpdate delegate obj opts (subResources s) res].

(** The events of a run of the retry driver: units, a sleep between two. *)
Inductive retry_trace (s : Store) (delegate : ResourceInterface) (name : string)
    : list Event -> Prop :=
| retry_last (a : list Event) :
    unit_trace s delegate name a -> retry_trace s delegate name a
| retry_again (a : list Event) (delay : Z) (rest : list Event) :
    unit_trace s delegate name a ->
    retry_trace s delegate name rest ->
    retry_trace s delegate name (a ++ EvSleep delay :: rest).

Definition is_sleep (ev : Event) : bool :=
  match ev with EvSleep _ => true | _ => false end.

Definition is_read (ev : Event) : bool :=
  match ev with EvGet _ _ _ _ _ => true | _ => false end.

Definition is_write (ev : Event) : bool :=
  match ev with EvUpdate _ _ _ _ _ => true | _ => false end.

(** Every write in [evs] comes right after a read of [name] on the same
    endpoint that returned an object of the label scope. *)
Definition write_follows_read (s : Store) (delegate : ResourceInterface)
    (name : string) (evs : list Event) : Prop :=
  ∀ i ri obj opts subs res,
    evs !! i = Some (EvUpdate ri obj opts subs res) ->
    ∃ j old,
      i = Datatypes.S j ∧ ri = delegate
      ∧ evs !! j = Some (EvGet delegate name (mkGetOptions "") (subResources s) (Ok old))
      ∧ matches (labelSelector s) old = true.

(** What the retry driver makes of the outcome of the unit it ran last. *)
Definition closure_return (out : Outcome (result Unstructured))
    : Outcome (option Unstructured * option error) :=
  match out with
  | Returns r => Returns (go_pair r)
  | Panics msg => Panics msg
  end.

(** The runtimes reachable from [r]. *)
Definition reachable (r r' : Runtime) : Prop := rtc rt_step r r'.

(** What stays true of a watch once [Watch] has set it up: its derived
    context [watchCtx] is there, child of the context [ctx] of the caller;
    its goroutine [i] is there; and when the goroutine has ended the
    derived context is done. *)
Definition watch_invariant (stop ctx watchCtx i : nat) (r : Runtime) : Prop :=
  (∃ cancelled, contexts r !! watchCtx = Some (mkDerivedContext ctx cancelled))
  ∧ ∃ state,
      goroutines r !! i = Some (mkWaiter stop ctx watchCtx state)
      ∧ (state = Exited -> derived_done r watchCtx = true).

(** Every goroutine cancels a context that exists. *)
Definition wf_runtime (r : Runtime) : Prop :=
  ∀ j g, goroutines r !! j = Some g -> (wt_cancels g < length (contexts r))%nat.

(** Who can cancel the derived context [watchCtx]: only goroutines that
    wait on [stop]; and it is cancelled only once [stop] is closed. *)
Definition cancel_invariant (stop watchCtx : nat) (r : Runtime) : Prop :=
  wf_runtime r
  ∧ (watchCtx < length (contexts r))%nat
  ∧ (∀ j g, goroutines r !! j = Some g -> wt_cancels g = watchCtx ->
            wt_stop g = stop)
  ∧ (∀ d, contexts r !! watchCtx = Some d -> dc_cancelled d = true ->
          stop ∈ closed r).

(** ** Vocabulary of the further statements *)

(** Every write in [evs] sends the candidate of the read right before it:
    the object the transform of the caller made of the object read, as
    [PrepareForUpdate] left it, after both validations accepted it. *)
Definition writes_validated (s : Store) (objInfo : UpdatedObjectInfo)
    (updateValidation : ValidateObjectUpdateFunc) (delegate : ResourceInterface)
    (name : string) (evs : list Event) : Prop :=
  ∀ i ri obj opts subs res,
    evs !! i = Some (EvUpdate ri obj opts subs res) ->
    ∃ j old candidate,
      i = Datatypes.S j ∧ ri = delegate ∧ subs = subResources s
      ∧ evs !! j
        = Some (EvGet delegate name (mkGetOptions "") (subResources s) (Ok old))
      ∧ matches (labelSelector s) old = true
      ∧ objInfo old = Ok (ObjUnstructured candidate)
      ∧ obj = (PrepareForUpdate (UpdateStrategy s) candidate old).1
      ∧ ValidateUpdate (UpdateStrategy s)
          (PrepareForUpdate (UpdateStrategy s) candidate old).1
          (PrepareForUpdate (UpdateStrategy s) candidate old).2 = []
      ∧ updateValidation
          (PrepareForUpdate (UpdateStrategy s) candidate old).1
          (PrepareForUpdate (UpdateStrategy s) candidate old).2 = None.

(** The runtime before any watch. *)
Definition initial_runtime : Runtime := mkRuntime [] ∅ ∅ [].

(** What holds of every goroutine of the runtime: the context it cancels
    exists and is a child of the context it waits for, and once the
    goroutine has ended that context is done. *)
Definition watches_invariant (r : Runtime) : Prop :=
  ∀ i g,
    goroutines r !! i = Some g ->
    (∃ cancelled,
       contexts r !! wt_cancels g = Some (mkDerivedContext (wt_ctx g) cancelled))
    ∧ (wt_state g = Exited -> derived_done r (wt_cancels g) = true).

(** More requests to evaluate the operations on. *)
Module Cases.
(** A namespace-scoped store under the scope env=prod. *)
Definition scoped_store : Store :=
  mkStore (mkGroupResource "apps" "deployments") true Sim.strategy Sim.gvr []
    Sim.backoff Sim.prod 0%nat.

(** A strategy whose validation rejects every update. *)
Definition strict : RESTUpdateStrategy :=
  mkUpdateStrategy (fun obj old => (obj, old))
    (fun _ _ => [mkFieldError "spec" "field is immutable"]).

Definition strict_store : Store :=
  mkStore (mkGroupResource "apps" "deployments") false strict Sim.gvr []
    Sim.backoff Sim.prod 0%nat.


(** X as the patch of the label tier leaves it, at a resource version. *)
Definition patched (version : string) : Unstructured :=
  mkUnstructured "X" "default" {[ "env" := "prod"; "tier" := "web" ]} version
    Sim.gvk [].

(** A conversion of list options that fails. *)
Definition refuse (o : ListOptions) : result ListOptions :=
  Err (ErrOther "cannot convert").

(** A context with a namespace. *)
Definition namespaced (cluster : Cluster) (namespace verb : string) : Context :=
  mkContext 0 (Ok cluster) (Some namespace) (Some (mkRequestInfo verb)).
(** The world after the first watch of a process, and its runtime once the
    stop channel of the store has been closed. *)
Definition watched : World Sim.SimEnv :=
  (@Watch _ Sim.sim_client ListOptions Sim.convert (Sim.store Sim.prod)
     [("env", "prod")]
     (Sim.context Sim.tenant "watch") (Sim.list_options "")
     (Sim.world [Sim.X] [] false)).2.

Definition stopped : Runtime :=
  mkRuntime (contexts (rt watched)) (ended (rt watched))
    ({[stopWatchesCh (Sim.store Sim.prod)]} ∪ closed (rt watched))
    (goroutines (rt watched)).
End Cases.

(** ** Deep copies of the tenancy API types

    [zz_generated.deepcopy.go] of the tenancy API, for
    [ClusterWorkspaceTypeSpec], whose copy is written out in full in that
    file.  What a deep copy is about is sharing, so slices and maps are
    references into a heap: a slice is nil or a header (backing array,
    offset, length, capacity), a map is nil or the address of its table.
    The declarations of the types are absent from src: the element types of
    the slices are parameters, with their zero values, and so is what else
    the struct holds, which the copy takes over by assignment. *)
Module Tenancy.
(** A slice header. *)
Record Slice := mkSlice {
  sl_array : nat;
  sl_offset : nat;
  sl_len : nat;
  sl_cap : nat
}.

Section Slices.
Context {A : Type}.

(** The elements [s[0]], ..., [s[len(s)-1]]. *)
Definition slice_elems (arrays : gmap nat (list A)) (sl : Slice) : list A :=
  take (sl_len sl) (drop (sl_offset sl) (default [] (arrays !! sl_array sl))).

(** A slice Go can hold: its window lies within an allocated array. *)
Definition slice_ok (arrays : gmap nat (list A)) (sl : Slice) : Prop :=
  ∃ arr, arrays !! sl_array sl = Some arr
         ∧ (sl_offset sl + sl_len sl <= length arr)%nat.

(** [make([]T, n)]: a fresh array of [n] zero values. *)
Definition make_slice (zero : A) (n : nat) (arrays : gmap nat (list A))
    : Slice * gmap nat (list A) :=
  let l := fresh (dom arrays) in
  (mkSlice l 0 n n, <[l := replicate n zero]> arrays).

(** [copy(dst, src)]: the first [min(len(dst), len(src))] elements of
    [src] overwrite those of [dst]. *)
Definition copy_slice (dst src : Slice) (arrays : gmap nat (list A))
    : gmap nat (list A) :=
  let n := Nat.min (sl_len dst) (sl_len src) in
  let data := take n (slice_elems arrays src) in
  alter (fun arr =>
           take (sl_offset dst) arr ++ data ++ drop (sl_offset dst + n) arr)
    (sl_array dst) arrays.

(** [s[i] = v], for [i] below the length. *)
Definition set_index (sl : Slice) (i : nat) (v : A) (arrays : gmap nat (list A))
    : gmap nat (list A) :=
  alter (fun arr => <[(sl_offset sl + i)%nat := v]> arr) (sl_array sl) arrays.

(** The copy of one slice field, when it is not nil: a [make] of the
    length of the field of [in], assigned to the field of [out], and a
    [copy] of the one into the other. *)
Definition deepcopy_slice (zero : A) (field : option Slice)
    (arrays : gmap nat (list A)) : option Slice * gmap nat (list A) :=
  match field with
  | None => (None, arrays)
  | Some src =>
      let made := make_slice zero (sl_len src) arrays in
      (Some made.1, copy_slice made.1 src made.2)
  end.
End Slices.

(** The copy of the map field, when it is not nil: a [make] of a map,
    assigned to the field of [out], and one assignment per entry of the
    map of [in], in the order [range] of the visit. *)
Definition deepcopy_labels (range : list (string * string)) (field : option nat)
    (maps : gmap nat (gmap string string))
    : option nat * gmap nat (gmap string string) :=
  match field with
  | None => (None, maps)
  | Some src =>
      let l := fresh (dom maps) in
      (Some l,
       fold_left (fun maps kv => alter (fun m => <[kv.1 := kv.2]> m) l maps)
         range (<[l := ∅]> maps))
  end.

Section Types.
Variables Initializer TypeName Other : Type.
Variable zeroInitializer : Initializer.
Variable zeroTypeName : TypeName.

Record ClusterWorkspaceTypeSpec := mkTypeSpec {
  Initializers : option Slice;
  AdditionalWorkspaceLabels : option nat;
  AllowedChildWorkspaceTypes : option Slice;
  AllowedParentWorkspaceTypes : option Slice;
  ts_other : Other
}.

Record Heap := mkHeap {
  initializers : gmap nat (list Initializer);
  typeNames : gmap nat (list TypeName);
  labelMaps : gmap nat (gmap string string)
}.

(** [DeepCopyInto] of [ClusterWorkspaceTypeSpec]: what it leaves in the
    struct [out] points to, and the heap after it. *)
Definition ClusterWorkspaceTypeSpec_DeepCopyInto (range : list (string * string))
    (in_ : ClusterWorkspaceTypeSpec) (h : Heap) : ClusterWorkspaceTypeSpec * Heap :=
  let out := in_ in
  let i := deepcopy_slice zeroInitializer (Initializers in_) (initializers h) in
  let l := deepcopy_labels range (AdditionalWorkspaceLabels in_) (labelMaps h) in
  let c := deepcopy_slice zeroTypeName (AllowedChildWorkspaceTypes in_) (typeNames h) in
  let p := deepcopy_slice zeroTypeName (AllowedParentWorkspaceTypes in_) c.2 in
  (mkTypeSpec i.1 l.1 c.1 p.1 (ts_other out), mkHeap i.2 p.2 l.2).

(** [DeepCopy] of [ClusterWorkspaceTypeSpec]; a nil receiver is [None]. *)
Definition ClusterWorkspaceTypeSpec_DeepCopy (range : list (string * string))
    (in_ : option ClusterWorkspaceTypeSpec) (h : Heap)
    : option ClusterWorkspaceTypeSpec * Heap :=
  match in_ with
  | None => (None, h)
  | Some v =>
      let copied := ClusterWorkspaceTypeSpec_DeepCopyInto range v h in
      (Some copied.1, copied.2)
  end.

(** A struct Go can hold in heap [h]. *)
Definition spec_ok (h : Heap) (v : ClusterWorkspaceTypeSpec) : Prop :=
  (∀ sl, Initializers v = Some sl -> slice_ok (initializers h) sl)
  ∧ (∀ l, AdditionalWorkspaceLabels v = Some l -> is_Some (labelMaps h !! l))
  ∧ (∀ sl, AllowedChildWorkspaceTypes v = Some sl -> slice_ok (typeNames h) sl)
  ∧ (∀ sl, AllowedParentWorkspaceTypes v = Some sl -> slice_ok (typeNames h) sl).

(** What the fields of a struct read in a heap. *)
Definition read_slice {A : Type} (arrays : gmap nat (list A))
    (field : option Slice) : option (list A) :=
  slice_elems arrays <$> field.

Definition read_labels (maps : gmap nat (gmap string string))
    (field : option nat) : option (gmap string string) :=
  l ← field; maps !! l.

(** What a struct reads in a heap, field by field; a nil slice and a nil
    map read as [None]. *)
Definition read_spec (h : Heap) (v : ClusterWorkspaceTypeSpec)
    : option (list Initializer) * option (gmap string string)
      * option (list TypeName) * option (list TypeName) * Other :=
  (read_slice (initializers h) (Initializers v),
   read_labels (labelMaps h) (AdditionalWorkspaceLabels v),
   read_slice (typeNames h) (AllowedChildWorkspaceTypes v),
   read_slice (typeNames h) (AllowedParentWorkspaceTypes v),
   ts_other v).
End Types.

(** A struct with two initializers in an array of three, a label map, no
    child types and an empty list of parent types. *)
Definition sample_heap : Heap string string :=
  mkHeap string string {[ 7%nat := ["a"; "b"; "c"] ]} {[ 3%nat := [] ]}
    {[ 5%nat := {[ "team" := "core" ]} ]}.

Definition sample_spec : ClusterWorkspaceTypeSpec string :=
  mkTypeSpec string (Some (mkSlice 7 1 2 2)) (Some 5%nat) None
    (Some (mkSlice 3 0 0 0)) "Universal".
End Tenancy.

(** * Properties *)

(** ** Strings *)

Lemma append_cons (a : Ascii.ascii) (s t : string) :
  String a s +:+ t = String a (s +:+ t).
Proof. reflexivity. Qed.

Lemma append_assoc (s t u : string) : (s +:+ t) +:+ u = s +:+ (t +:+ u).
Proof.
  induction s as [|a s IH]; [reflexivity|].
  rewrite !append_cons. by rewrite IH.
Qed.

Lemma append_empty_r (s : string) : s +:+ "" = s.
Proof.
  induction s as [|a s IH]; [reflexivity|].
  rewrite append_cons. by rewrite IH.
Qed.

Lemma append_eq_empty (s t : string) : s +:+ t = "" -> s = "" ∧ t = "".
Proof.
  destruct s as [|a s]; [|rewrite append_cons; discriminate].
  change ("" +:+ t) with t. by intros ->.
Qed.

Lemma clause_nonempty (kv : string * string) : clause kv ≠ "".
Proof.
  unfold clause. intros [_ E]%append_eq_empty.
  rewrite append_cons in E. discriminate.
Qed.

Lemma length_zero_empty (s : string) : String.length s = 0%nat ↔ s = "".
Proof. destruct s; split; intros E; try done. Qed.

(** ** The label scope filter *)

Lemma toExpression_step_nonempty (expr : string) (kv : string * string) :
  toExpression_step expr kv ≠ "".
Proof.
  unfold toExpression_step. intros [_ E]%append_eq_empty.
  by apply clause_nonempty in E.
Qed.

(** The loop, started on an expression that is not empty, appends a comma
    and the joined clauses. *)
Lemma fold_toExpression_step (range : list (string * string)) (expr : string) :
  expr ≠ "" ->
  fold_left toExpression_step range expr
  = match range with
    | [] => expr
    | _ => expr +:+ "," +:+ joined range
    end.
Proof.
  revert expr. induction range as [|kv rest IH]; intros expr Hne; [done|].
  cbn [fold_left].
  rewrite IH by apply toExpression_step_nonempty.
  unfold toExpression_step. rewrite bool_decide_eq_true_2 by done.
  unfold joined. destruct rest as [|kv' rest']; cbn [map String.concat].
  - by rewrite append_assoc.
  - by rewrite !append_assoc.
Qed.

(** The loop from the empty expression joins the clauses with commas. *)
Lemma fold_toExpression_joined (range : list (string * string)) :
  fold_left toExpression_step range "" = joined range.
Proof.
  destruct range as [|kv rest]; [done|].
  cbn [fold_left].
  rewrite fold_toExpression_step by apply toExpression_step_nonempty.
  unfold toExpression_step. rewrite bool_decide_eq_false_2 by (intros E; by apply E).
  unfold joined. destruct rest; cbn [map String.concat]; [done|].
  by rewrite append_assoc.
Qed.

Lemma range_of_empty (labelSelect : option (gmap string string))
    (range : list (string * string)) :
  range_of labelSelect range ->
  size (default ∅ labelSelect) = 0%nat ->
  range = [].
Proof.
  unfold range_of. intros Hperm Hsize.
  apply map_size_empty_iff in Hsize. rewrite Hsize, map_to_list_empty in Hperm.
  by apply Permutation_nil_r in Hperm.
Qed.

(** [toExpression] is the comma-joined list of the clauses it visited. *)
Lemma toExpression_joined (labelSelect : option (gmap string string))
    (range : list (string * string)) :
  range_of labelSelect range ->
  toExpression labelSelect range = joined range.
Proof.
  intros Hrange. unfold toExpression. case_bool_decide as Hsize.
  - by rewrite (range_of_empty _ _ Hrange Hsize).
  - apply fold_toExpression_joined.
Qed.

(** An empty scope, nil or not, has the empty expression. *)
Lemma toExpression_empty_scope (labelSelect : option (gmap string string))
    (range : list (string * string)) :
  size (default ∅ labelSelect) = 0%nat ->
  toExpression labelSelect range = "".
Proof. intros Hsize. unfold toExpression. by rewrite bool_decide_eq_true_2. Qed.

Lemma contains_concat (sep c : string) (l : list string) :
  c ∈ l -> contains (String.concat sep l) c.
Proof.
  induction l as [|x l IH]; [by intros ?%elem_of_nil|].
  intros [->|Hin]%elem_of_cons.
  - destruct l as [|y l]; cbn [String.concat].
    + exists "", "". by rewrite append_empty_r.
    + by exists "", (sep +:+ String.concat sep (y :: l)).
  - destruct (IH Hin) as (pre & post & E).
    destruct l as [|y l]; [by apply elem_of_nil in Hin|].
    cbn [String.concat]. cbn [String.concat] in E. rewrite E.
    exists (x +:+ sep +:+ pre), post. by rewrite !append_assoc.
Qed.

Lemma contains_append_r (s t c : string) : contains t c -> contains (s +:+ t) c.
Proof.
  intros (pre & post & ->). exists (s +:+ pre), post. by rewrite append_assoc.
Qed.

(** Every pair of the scope has its clause among the visited ones. *)
Lemma scope_clause_visited (labelSelect : option (gmap string string))
    (range : list (string * string)) (k v : string) :
  range_of labelSelect range ->
  default ∅ labelSelect !! k = Some v ->
  clause (k, v) ∈ map clause range.
Proof.
  unfold range_of. intros Hperm Hkv.
  apply list_elem_of_fmap. exists (k, v). split; [done|].
  rewrite Hperm. by apply elem_of_map_to_list.
Qed.

Lemma matches_loop_true (range : list (string * string)) (obj : Unstructured) :
  matches_loop range obj = true
  ↔ ∀ k v, (k, v) ∈ range -> go_index (GetLabels obj) k = v.
Proof.
  induction range as [|[k v] rest IH]; cbn [matches_loop].
  - split; [|done]. intros _ k v Hin. by apply elem_of_nil in Hin.
  - case_bool_decide as Hkv.
    + split; [done|]. intros Hall. destruct Hkv. apply Hall, elem_of_cons. by left.
    + rewrite IH. split.
      * intros Hall k' v' [E|Hin]%elem_of_cons; [by simplify_eq | by apply Hall].
      * intros Hall k' v' Hin. apply Hall, elem_of_cons. by right.
Qed.

(** The result of [matches] does not depend on the order of the visit. *)
Lemma matches_in_range (labelSelector : option (gmap string string))
    (range : list (string * string)) (obj : Unstructured) :
  range_of labelSelector range ->
  matches_in labelSelector range obj = matches labelSelector obj.
Proof.
  unfold range_of, matches, matches_in. intros Hperm.
  destruct labelSelector as [scope|]; [|done].
  apply eq_true_iff_eq. rewrite !matches_loop_true.
  by setoid_rewrite Hperm.
Qed.

(** [matches] holds when every required pair is the label the object
    reads, in the Go way, under that key. *)
Lemma matches_true (labelSelector : option (gmap string string)) (obj : Unstructured) :
  matches labelSelector obj = true
  ↔ ∀ k v, default ∅ labelSelector !! k = Some v -> go_index (GetLabels obj) k = v.
Proof.
  unfold matches, matches_in. destruct labelSelector as [scope|]; cbn [default].
  - rewrite matches_loop_true. by setoid_rewrite elem_of_map_to_list.
  - split; [|done]. intros _ k v. by rewrite lookup_empty.
Qed.

(** [matches] fails when some required pair is not what the object reads. *)
Lemma matches_false (labelSelector : option (gmap string string)) (obj : Unstructured) :
  matches labelSelector obj = false
  ↔ ∃ k v, default ∅ labelSelector !! k = Some v ∧ go_index (GetLabels obj) k ≠ v.
Proof.
  rewrite <- not_true_iff_false, matches_true. split.
  - intros Hnot. apply dec_stable. intros Hno. apply Hnot. intros k v Hkv.
    apply dec_stable. intros Hne. apply Hno. by exists k, v.
  - intros (k & v & Hkv & Hne) Hall. by apply Hne, Hall.
Qed.

(** A key the object lacks, required with a value that is not empty, makes
    [matches] fail. *)
Lemma matches_missing_key (scope : gmap string string) (obj : Unstructured)
    (k v : string) :
  scope !! k = Some v ->
  GetLabels obj !! k = None ->
  v ≠ "" ->
  matches (Some scope) obj = false.
Proof.
  intros Hkv Hmiss Hne. apply matches_false. exists k, v. split; [done|].
  unfold go_index. rewrite Hmiss. cbn. congruence.
Qed.

(** ** The operations *)



Section RegistryProperties.
Context {Env : Type} `{DynamicClient Env}.
Variable InternalListOptions : Type.
Variable convert : InternalListOptions -> result ListOptions.
Variable computed_delay : Backoff -> nat -> Z.

Lemma scopedSelector_joined (s : Store) (range : list (string * string))
    (caller : string) :
  range_of (labelSelector s) range ->
  scopedSelector s range caller
  = if bool_decide (caller = "") then joined range
    else caller +:+ "," +:+ joined range.
Proof.
  intros Hrange. unfold scopedSelector. rewrite toExpression_joined by done.
  destruct caller; reflexivity.
Qed.

Lemma List_calls (s : Store) (range : list (string * string)) (ctx : Context)
    (options : InternalListOptions) (v1ListOptions : ListOptions)
    (delegate : ResourceInterface) (w : World Env) :
  convert options = Ok v1ListOptions ->
  getClientResource s ctx = Ok delegate ->
  calls (List InternalListOptions convert s range ctx options w).2
  = calls w ++
    [EvList delegate
       (set_LabelSelector (scopedSelector s range (LabelSelector v1ListOptions))
          v1ListOptions)].
Proof.
  intros Hconv Hres. unfold List. rewrite Hconv, Hres. unfold call_List.
  by destruct (dyn_List _ _ _ _).
Qed.

Lemma Watch_calls (s : Store) (range : list (string * string)) (ctx : Context)
    (options : InternalListOptions) (v1ListOptions : ListOptions)
    (delegate : ResourceInterface) (w : World Env) :
  convert options = Ok v1ListOptions ->
  getClientResource s ctx = Ok delegate ->
  ∃ res,
    calls (Watch InternalListOptions convert s range ctx options w).2
    = calls w ++
      [EvWatch delegate (length (contexts (rt w)))
         (set_LabelSelector (scopedSelector s range (LabelSelector v1ListOptions))
            v1ListOptions) res].
Proof.
  intros Hconv Hres. unfold Watch. rewrite Hconv, Hres.
  unfold bind, WithCancel, go, call_Watch. cbn.
  destruct (dyn_Watch _ _ _) as [res e]. by exists res.
Qed.

(** C3: the label selector List and Watch pass to the backing client is
    the comma-joined list of the key=value clauses of the label scope,
    every pair of the scope among them, appended after the selector of
    the caller and a comma when the caller gave one, and alone when the
    caller gave none. *)
Theorem selector_pushdown (s : Store) (range : list (string * string))
    (ctx : Context) (options : InternalListOptions)
    (v1ListOptions : ListOptions) (delegate : ResourceInterface)
    (w : World Env) :
  range_of (labelSelector s) range ->
  convert options = Ok v1ListOptions ->
  getClientResource s ctx = Ok delegate ->
  ∃ sent : string,
    sent = (if bool_decide (LabelSelector v1ListOptions = "") then joined range
            else LabelSelector v1ListOptions +:+ "," +:+ joined range)
    ∧ calls (List InternalListOptions convert s range ctx options w).2
      = calls w ++ [EvList delegate (set_LabelSelector sent v1ListOptions)]
    ∧ (∃ res,
         calls (Watch InternalListOptions convert s range ctx options w).2
         = calls w ++
           [EvWatch delegate (length (contexts (rt w)))
              (set_LabelSelector sent v1ListOptions) res])
    ∧ map clause range ≡ₚ map clause (map_to_list (default ∅ (labelSelector s)))
    ∧ ∀ k v, default ∅ (labelSelector s) !! k = Some v ->
        clause (k, v) ∈ map clause range ∧ contains sent (k +:+ "=" +:+ v).
Proof.
  intros Hrange Hconv Hres. eexists. split; [reflexivity|].
  rewrite <- (scopedSelector_joined s) by done.
  split; [by apply List_calls|]. split; [by apply Watch_calls|].
  split; [by apply Permutation_map|].
  intros k v Hkv.
  pose proof (scope_clause_visited _ _ _ _ Hrange Hkv) as Hin.
  split; [done|].
  rewrite scopedSelector_joined by done.
  change (k +:+ "=" +:+ v) with (clause (k, v)).
  case_bool_decide; [by apply contains_concat|].
  apply contains_append_r, contains_append_r. by apply contains_concat.
Qed.

(** C10: with an empty label scope, List and Watch forward the selector
    of the caller with a comma appended when it is not empty, and the
    empty string when it is. *)
Theorem empty_scope_trailing_comma (s : Store) (range : list (string * string))
    (ctx : Context) (options : InternalListOptions)
    (v1ListOptions : ListOptions) (delegate : ResourceInterface)
    (w : World Env) :
  size (default ∅ (labelSelector s)) = 0%nat ->
  convert options = Ok v1ListOptions ->
  getClientResource s ctx = Ok delegate ->
  ∃ sent : string,
    sent = (if bool_decide (LabelSelector v1ListOptions = "") then ""
            else LabelSelector v1ListOptions +:+ ",")
    ∧ calls (List InternalListOptions convert s range ctx options w).2
      = calls w ++ [EvList delegate (set_LabelSelector sent v1ListOptions)]
    ∧ ∃ res,
        calls (Watch InternalListOptions convert s range ctx options w).2
        = calls w ++
          [EvWatch delegate (length (contexts (rt w)))
             (set_LabelSelector sent v1ListOptions) res].
Proof.
  intros Hempty Hconv Hres. eexists. split; [reflexivity|].
  assert (scopedSelector s range (LabelSelector v1ListOptions)
          = if bool_decide (LabelSelector v1ListOptions = "") then ""
            else LabelSelector v1ListOptions +:+ ",") as <-.
  { unfold scopedSelector. rewrite toExpression_empty_scope by done.
    destruct (LabelSelector v1ListOptions); reflexivity. }
  split; [by apply List_calls | by apply Watch_calls].
Qed.

Lemma Get_unfold (s : Store) (ctx : Context) (name : string) (opts : GetOptions)
    (delegate : ResourceInterface) (w : World Env) :
  getClientResource s ctx = Ok delegate ->
  Get s ctx name (Some opts) w
  = let read := dyn_Get ctx delegate name opts (subResources s) (env w) in
    let w' := log (EvGet delegate name opts (subResources s) read.1)
                (mkWorld read.2 (calls w) (rt w)) in
    match read.1 with
    | Err err => (Returns (Err err), w')
    | Ok obj =>
        if matches (labelSelector s) obj then (Returns (Ok obj), w')
        else (Returns (Err (NewNotFound (DefaultQualifiedResource s) name)), w')
    end.
Proof.
  intros Hres. unfold Get. rewrite Hres. unfold bind, call_Get.
  destruct (dyn_Get _ _ _ _ _ _) as [[obj|err] e]; cbn; [|done].
  by destruct (matches _ _).
Qed.


(** One unit of [Update] reads the backing store as it is when the unit
    starts; then it either stops without a write, or writes an object
    computed from the object it read, which lies in the label scope, and
    returns what the write returned. *)
Lemma doUpdate_cases (s : Store) (ctx : Context) (name : string)
    (objInfo : UpdatedObjectInfo) (updateValidation : ValidateObjectUpdateFunc)
    (options : option UpdateOptions) (delegate : ResourceInterface)
    (w : World Env) :
  getClientResource s ctx = Ok delegate ->
  let read := dyn_Get ctx delegate name (mkGetOptions "") (subResources s) (env w) in
  let w1 := log (EvGet delegate name (mkGetOptions "") (subResources s) read.1)
              (mkWorld read.2 (calls w) (rt w)) in
  let out := doUpdate s ctx name objInfo updateValidation options delegate w in
  (out.2 = w1 ∧ ∀ r, out.1 = Returns r -> ∃ err, r = Err err)
  ∨ (∃ old obj opts,
       read.1 = Ok old ∧ matches (labelSelector s) old = true
       ∧ options = Some opts
       ∧ out = ((Returns (dyn_Update ctx delegate obj opts (subResources s) read.2).1),
                log (EvUpdate delegate obj opts (subResources s)
                       (dyn_Update ctx delegate obj opts (subResources s) read.2).1)
                  (mkWorld (dyn_Update ctx delegate obj opts (subResources s) read.2).2
                     (calls w1) (rt w)))).
Proof.
  intros Hres. cbv zeta. unfold doUpdate, bind.
  rewrite (Get_unfold _ _ _ _ delegate) by done. cbv zeta.
  destruct (dyn_Get _ _ _ _ _ _) as [[old|err] e1]; cbn [fst snd];
    [|left; split; [done|]; intros r [= <-]; by eexists].
  destruct (matches (labelSelector s) old) eqn:Hscope;
    [|left; split; [done|]; intros r [= <-]; by eexists].
  destruct (objInfo old) as [obj|err];
    [|left; split; [done|]; intros r [= <-]; by eexists].
  destruct (asUnstructured obj) as [unstructuredObj|];
    [|left; split; [done|]; intros r [= <-]; by eexists].
  cbv zeta. case_bool_decide;
    [left; split; [done|]; intros r [= <-]; by eexists|].
  destruct (updateValidation _ _) as [err|];
    [left; split; [done|]; intros r [= <-]; by eexists|].
  destruct options as [opts|]; [|left; split; [done|]; by intros r [=]].
  right.
  exists old, (PrepareForUpdate (UpdateStrategy s) unstructuredObj old).1, opts.
  repeat split; try done.
  unfold call_Update. cbn [env calls rt log].
  by destruct (dyn_Update _ _ _ _ _ _).
Qed.

(** The events of one unit. *)
Lemma doUpdate_trace (s : Store) (ctx : Context) (name : string)
    (objInfo : UpdatedObjectInfo) (updateValidation : ValidateObjectUpdateFunc)
    (options : option UpdateOptions) (delegate : ResourceInterface)
    (w : World Env) :
  getClientResource s ctx = Ok delegate ->
  ∃ rest,
    calls (doUpdate s ctx name objInfo updateValidation options delegate w).2
    = calls w ++
      EvGet delegate name (mkGetOptions "") (subResources s)
        (dyn_Get ctx delegate name (mkGetOptions "") (subResources s) (env w)).1
      :: rest
    ∧ unit_trace s delegate name
        (EvGet delegate name (mkGetOptions "") (subResources s)
           (dyn_Get ctx delegate name (mkGetOptions "") (subResources s) (env w)).1
         :: rest).
Proof.
  intros Hres.
  destruct (doUpdate_cases s ctx name objInfo updateValidation options delegate w Hres)
    as [[Hw _]|(old & obj & opts & Hread & Hscope & _ & Hout)].
  - exists []. rewrite Hw. split; [done|]. constructor.
  - eexists [_]. rewrite Hout. cbn [snd calls log]. rewrite <- app_assoc.
    split; [done|]. rewrite Hread. by constructor.
Qed.

(** A unit whose last event is a write returns what the write returned. *)
Lemma doUpdate_write_returned (s : Store) (ctx : Context) (name : string)
    (objInfo : UpdatedObjectInfo) (updateValidation : ValidateObjectUpdateFunc)
    (options : option UpdateOptions) (delegate : ResourceInterface)
    (w : World Env) (pre : list Event) (ri : ResourceInterface)
    (obj : Unstructured) (opts : UpdateOptions) (subs : list string)
    (res : result Unstructured) :
  getClientResource s ctx = Ok delegate ->
  calls (doUpdate s ctx name objInfo updateValidation options delegate w).2
  = pre ++ [EvUpdate ri obj opts subs res] ->
  (doUpdate s ctx name objInfo updateValidation options delegate w).1 = Returns res.
Proof.
  intros Hres Hlast.
  destruct (doUpdate_cases s ctx name objInfo updateValidation options delegate w Hres)
    as [[Hw _]|(old & obj' & opts' & _ & _ & _ & Hout)].
  - rewrite Hw in Hlast. cbn [calls log] in Hlast.
    by apply app_inj_tail in Hlast as [_ ?].
  - rewrite Hout in Hlast |- *. cbn [snd fst calls log] in Hlast |- *.
    apply app_inj_tail in Hlast as [_ E]. by simplify_eq.
Qed.

(** *** The shape of the event log *)

Lemma unit_trace_counts (s : Store) (delegate : ResourceInterface)
    (name : string) (a : list Event) :
  unit_trace s delegate name a ->
  length (List.filter is_read a) = 1%nat
  ∧ List.filter is_sleep a = []
  ∧ (length (List.filter is_write a) <= 1)%nat.
Proof. intros [res|old obj opts res Hscope]; cbn; auto. Qed.

Lemma retry_trace_snoc (s : Store) (delegate : ResourceInterface)
    (name : string) (evs a : list Event) (delay : Z) :
  retry_trace s delegate name evs ->
  unit_trace s delegate name a ->
  retry_trace s delegate name (evs ++ EvSleep delay :: a).
Proof.
  intros Hevs Ha. induction Hevs as [a0 Ha0|a0 d rest Ha0 _ IH].
  - apply retry_again; [done|]. by apply retry_last.
  - rewrite <- app_assoc. cbn [app]. by apply retry_again.
Qed.

(** A retried run has one read per attempt: one more than it has sleeps. *)
Lemma retry_trace_counts (s : Store) (delegate : ResourceInterface)
    (name : string) (evs : list Event) :
  retry_trace s delegate name evs ->
  length (List.filter is_read evs)
  = Datatypes.S (length (List.filter is_sleep evs)).
Proof.
  induction 1 as [a Ha|a d rest Ha _ IH].
  - destruct (unit_trace_counts _ _ _ _ Ha) as (-> & -> & _). done.
  - destruct (unit_trace_counts _ _ _ _ Ha) as (Hr & Hs & _).
    rewrite !List.filter_app, !length_app. cbn. rewrite Hr, Hs, IH. cbn. lia.
Qed.

Lemma unit_trace_write_follows_read (s : Store) (delegate : ResourceInterface)
    (name : string) (a : list Event) :
  unit_trace s delegate name a -> write_follows_read s delegate name a.
Proof.
  intros [r|old obj opts r Hscope] i ri obj' opts' subs res Hi.
  - destruct i as [|i]; [done|]. by destruct i.
  - destruct i as [|[|i]]; [done| |done]. cbn in Hi. simplify_eq.
    by exists 0%nat, old.
Qed.

Lemma retry_trace_write_follows_read (s : Store) (delegate : ResourceInterface)
    (name : string) (evs : list Event) :
  retry_trace s delegate name evs -> write_follows_read s delegate name evs.
Proof.
  induction 1 as [a Ha|a d rest Ha _ IH];
    [by apply unit_trace_write_follows_read|].
  intros i ri obj opts subs res Hi.
  apply lookup_app_Some in Hi as [Hi|[Hlen Hi]].
  - destruct (unit_trace_write_follows_read _ _ _ _ Ha _ _ _ _ _ _ Hi)
      as (j & old & -> & -> & Hj & Hscope).
    exists j, old. repeat split; try done. by apply lookup_app_l_Some.
  - destruct (i - length a)%nat as [|i'] eqn:Ei; [done|]. cbn in Hi.
    destruct (IH _ _ _ _ _ _ Hi) as (j & old & -> & -> & Hj & Hscope).
    exists (length a + Datatypes.S j)%nat, old.
    split; [lia|]. split; [done|]. split; [|done].
    rewrite lookup_app_r by lia.
    replace (length a + Datatypes.S j - length a)%nat with (Datatypes.S j) by lia.
    done.
Qed.

(** *** The retry driver over a unit *)

Section Driver.
Variable backoff : Backoff.
Variable unit : M Env (result Unstructured).

Local Abbreviation world_of := (attempt_world computed_delay backoff unit).
Local Abbreviation closure :=
  (fun _ : option Unstructured => do r <- unit ;; ret (go_pair r)).

(** The driver, entered at attempt [n] with [remaining] attempts left
    after it, stops at an attempt [k]: every attempt before [k] failed
    with a conflict, attempt [k] did not unless it used up the budget,
    and the driver returns what attempt [k] returned. *)
Lemma attempting_stops (remaining n : nat) (cap : option Unstructured)
    (w : World Env) :
  ∃ k : nat,
    (n <= k <= n + remaining)%nat
    ∧ (∀ j, (n <= j < k)%nat -> conflicted (unit (world_of j w)).1 = true)
    ∧ (conflicted (unit (world_of k w)).1 = true -> k = (n + remaining)%nat)
    ∧ attempting computed_delay remaining n backoff closure cap (world_of n w)
      = (closure_return (unit (world_of k w)).1, (unit (world_of k w)).2).
Proof.
  revert n cap. induction remaining as [|remaining IH]; intros n cap.
  - exists n. split; [lia|]. split; [intros j Hj; lia|]. split; [intros _; lia|].
    cbn [attempting]. unfold bind, ret.
    destruct (unit (world_of n w)) as [[[obj|err]|msg] w1]; cbn; try done.
    by destruct (IsConflict err).
  - cbn [attempting]. unfold bind at 1 2. unfold ret at 1.
    destruct (unit (world_of n w)) as [[[obj|err]|msg] w1] eqn:Hunit.
    + exists n. rewrite Hunit. cbn. repeat split; try done; lia.
    + cbn [snd fst go_pair]. destruct (IsConflict err) eqn:Hconflict.
      * destruct (IH (Datatypes.S n) None) as (k & Hk & Hbefore & Hlast & Hrun).
        exists k. split; [lia|].
        split; [|split; [intros ?; rewrite Hlast by done; lia|]].
        { intros j Hj. destruct (decide (j = n)) as [->|Hne].
          - rewrite Hunit. done.
          - apply Hbefore. lia. }
        unfold bind, sleep. cbn [fst snd].
        replace (log (EvSleep (computed_delay backoff n)) w1)
          with (world_of (Datatypes.S n) w); [done|].
        cbn [attempt_world]. by rewrite Hunit.
      * exists n. rewrite Hunit. cbn. rewrite Hconflict.
        repeat split; try done; lia.
    + exists n. rewrite Hunit. cbn. repeat split; try done; lia.
Qed.

(** The log up to the end of attempt [k]: the units, a sleep between
    two, one sleep per retry. *)
Lemma attempt_world_trace (s : Store) (delegate : ResourceInterface)
    (name : string) (k : nat) (w : World Env) :
  (∀ w0, ∃ a, calls (unit w0).2 = calls w0 ++ a ∧ unit_trace s delegate name a) ->
  ∃ evs,
    calls (unit (world_of k w)).2 = calls w ++ evs
    ∧ retry_trace s delegate name evs
    ∧ length (List.filter is_sleep evs) = k.
Proof.
  intros Hunit. induction k as [|k IH].
  - destruct (Hunit w) as (a & Ha & Htrace). exists a.
    split; [done|]. split; [by apply retry_last|].
    by destruct (unit_trace_counts _ _ _ _ Htrace) as (_ & -> & _).
  - destruct IH as (evs & Hevs & Htrace & Hsleeps).
    destruct (Hunit (world_of (Datatypes.S k) w)) as (a & Ha & Hta).
    exists (evs ++ EvSleep (computed_delay backoff k) :: a).
    split; [|split].
    + rewrite Ha. cbn [attempt_world log calls]. rewrite Hevs.
      by rewrite <- !app_assoc.
    + by apply retry_trace_snoc.
    + rewrite List.filter_app, length_app. cbn.
      destruct (unit_trace_counts _ _ _ _ Hta) as (_ & -> & _).
      rewrite Hsleeps. cbn. lia.
Qed.
End Driver.

(** *** Update *)

(** Without the patch verb, [Update] is one run of the unit. *)
Lemma Update_full_run (s : Store) (ctx : Context) (name : string)
    (objInfo : UpdatedObjectInfo) (createValidation : ValidateObjectFunc)
    (updateValidation : ValidateObjectUpdateFunc) (forceAllowCreate : bool)
    (options : option UpdateOptions) (delegate : ResourceInterface)
    (w : World Env) :
  getClientResource s ctx = Ok delegate ->
  (∀ requestInfo, RequestInfoFrom ctx = Some requestInfo ->
                  Verb requestInfo ≠ "patch") ->
  Update computed_delay s ctx name objInfo createValidation updateValidation
    forceAllowCreate options w
  = (update_return
       (doUpdate s ctx name objInfo updateValidation options delegate w).1,
     (doUpdate s ctx name objInfo updateValidation options delegate w).2).
Proof.
  intros Hres Hverb. unfold Update. rewrite Hres.
  destruct (RequestInfoFrom ctx) as [requestInfo|] eqn:Hinfo.
  - rewrite bool_decide_eq_false_2 by by apply Hverb.
    unfold bind, ret. by destruct (doUpdate _ _ _ _ _ _ _ w) as [[r|msg] w1].
  - unfold bind, ret. by destruct (doUpdate _ _ _ _ _ _ _ w) as [[r|msg] w1].
Qed.

(** With the patch verb, [Update] is the retry driver over the unit. *)
Lemma Update_patch_run (s : Store) (ctx : Context) (name : string)
    (objInfo : UpdatedObjectInfo) (createValidation : ValidateObjectFunc)
    (updateValidation : ValidateObjectUpdateFunc) (forceAllowCreate : bool)
    (options : option UpdateOptions) (delegate : ResourceInterface)
    (requestInfo : RequestInfo) (w : World Env) :
  getClientResource s ctx = Ok delegate ->
  RequestInfoFrom ctx = Some requestInfo ->
  Verb requestInfo = "patch" ->
  ∃ k : nat,
    (k < Nat.max 1 (Z.to_nat (Steps (patchConflictRetryBackoff s))))%nat
    ∧ (∀ j, (j < k)%nat ->
         conflicted
           (doUpdate s ctx name objInfo updateValidation options delegate
              (attempt_world computed_delay (patchConflictRetryBackoff s)
                 (doUpdate s ctx name objInfo updateValidation options delegate)
                 j w)).1 = true)
    ∧ (conflicted
         (doUpdate s ctx name objInfo updateValidation options delegate
            (attempt_world computed_delay (patchConflictRetryBackoff s)
               (doUpdate s ctx name objInfo updateValidation options delegate)
               k w)).1 = true ->
       Datatypes.S k = Nat.max 1 (Z.to_nat (Steps (patchConflictRetryBackoff s))))
    ∧ Update computed_delay s ctx name objInfo createValidation updateValidation
        forceAllowCreate options w
      = (update_return
           (doUpdate s ctx name objInfo updateValidation options delegate
              (attempt_world computed_delay (patchConflictRetryBackoff s)
                 (doUpdate s ctx name objInfo updateValidation options delegate)
                 k w)).1,
         (doUpdate s ctx name objInfo updateValidation options delegate
            (attempt_world computed_delay (patchConflictRetryBackoff s)
               (doUpdate s ctx name objInfo updateValidation options delegate)
               k w)).2).
Proof.
  intros Hres Hinfo Hverb.
  destruct (attempting_stops (patchConflictRetryBackoff s)
              (doUpdate s ctx name objInfo updateValidation options delegate)
              (Z.to_nat (Steps (patchConflictRetryBackoff s)) - 1) 0 None w)
    as (k & Hk & Hbefore & Hlast & Hrun).
  exists k. split; [lia|]. split; [intros j Hj; apply Hbefore; lia|].
  split; [intros Hc; rewrite (Hlast Hc); lia|].
  unfold Update. rewrite Hres, Hinfo, bool_decide_eq_true_2 by done.
  unfold RetryOnConflict. unfold bind at 1.
  cbn [attempt_world] in Hrun. rewrite Hrun.
  by destruct (doUpdate _ _ _ _ _ _ _ _) as [[r|msg] w1].
Qed.

(** The closure [doUpdate] is the read-modify-write cycle of the
    specification: it answers what the cycle answers, appends the calls of
    the cycle to the log, leaves the backing store as the cycle leaves it,
    and does not touch the runtime. *)
Lemma doUpdate_cycle (s : Store) (ctx : Context) (name : string)
    (objInfo : UpdatedObjectInfo) (updateValidation : ValidateObjectUpdateFunc)
    (options : option UpdateOptions) (delegate : ResourceInterface)
    (w : World Env) :
  getClientResource s ctx = Ok delegate ->
  doUpdate s ctx name objInfo updateValidation options delegate w
  = (cy_out (read_modify_write s ctx name objInfo updateValidation options
               delegate (env w)),
     mkWorld
       (cy_env (read_modify_write s ctx name objInfo updateValidation options
                  delegate (env w)))
       (calls w
        ++ cy_calls (read_modify_write s ctx name objInfo updateValidation
                       options delegate (env w)))
       (rt w)).
Proof.
  intros Hres. unfold doUpdate, read_modify_write, bind.
  rewrite (Get_unfold _ _ _ _ delegate) by done. cbv zeta.
  destruct (dyn_Get _ _ _ _ _ _) as [[current|err] e1]; cbn [fst snd]; [|done].
  destruct (matches (labelSelector s) current); [|done].
  destruct (objInfo current) as [[transformed|kind|]|err]; cbn [asUnstructured];
    try done.
  cbv zeta.
  destruct (ValidateUpdate _ _ _) as [|failure failures]; cbn [length];
    [|by rewrite bool_decide_eq_true_2 by lia].
  rewrite bool_decide_eq_false_2 by lia.
  destruct (updateValidation _ _) as [err|]; [done|].
  destruct options as [opts|]; [|done].
  unfold call_Update. cbn [env calls rt log].
  destruct (dyn_Update _ _ _ _ _ _) as [res e2].
  cbn [fst snd calls env rt cy_out cy_calls cy_env]. unfold log.
  cbn [calls env rt]. by rewrite <- app_assoc.
Qed.

(** The attempts of the retry driver over [doUpdate] are the attempts of
    the specification: attempt [n] starts in the state of the backing store
    the attempt before it left and runs one cycle there. *)
Lemma attempt_world_cycles (s : Store) (ctx : Context) (name : string)
    (objInfo : UpdatedObjectInfo) (updateValidation : ValidateObjectUpdateFunc)
    (options : option UpdateOptions) (delegate : ResourceInterface)
    (n : nat) (w : World Env) :
  getClientResource s ctx = Ok delegate ->
  doUpdate s ctx name objInfo updateValidation options delegate
    (attempt_world computed_delay (patchConflictRetryBackoff s)
       (doUpdate s ctx name objInfo updateValidation options delegate) n w)
  = (cy_out (attempt s ctx name objInfo updateValidation options delegate n
               (env w)),
     mkWorld
       (cy_env (attempt s ctx name objInfo updateValidation options delegate n
                  (env w)))
       (calls w
        ++ attempts_calls computed_delay s ctx name objInfo updateValidation
             options delegate n (env w))
       (rt w)).
Proof.
  intros Hres. induction n as [|n IH].
  - cbn [attempt_world attempts_calls]. by rewrite doUpdate_cycle.
  - cbn [attempt_world attempts_calls]. rewrite IH. cbn [snd].
    rewrite doUpdate_cycle by done. unfold attempt at 2 3 4.
    cbn [log env calls rt attempt_env].
    unfold attempt at 1 2 3.
    by rewrite <- !app_assoc.
Qed.

(** The calls of one cycle: the read of the backing store as it is then,
    and nothing else or the write of the candidate made from the object
    this read returned, whose answer is the answer of the cycle. *)
Lemma read_modify_write_calls (s : Store) (ctx : Context) (name : string)
    (objInfo : UpdatedObjectInfo) (updateValidation : ValidateObjectUpdateFunc)
    (options : option UpdateOptions) (delegate : ResourceInterface) (e : Env) :
  cy_calls (read_modify_write s ctx name objInfo updateValidation options
              delegate e)
  = [EvGet delegate name (mkGetOptions "") (subResources s)
       (dyn_Get ctx delegate name (mkGetOptions "") (subResources s) e).1]
  ∨ ∃ current transformed opts,
      dyn_Get ctx delegate name (mkGetOptions "") (subResources s) e
      = (Ok current,
         (dyn_Get ctx delegate name (mkGetOptions "") (subResources s) e).2)
      ∧ matches (labelSelector s) current = true
      ∧ objInfo current = Ok (ObjUnstructured transformed)
      ∧ options = Some opts
      ∧ cy_calls (read_modify_write s ctx name objInfo updateValidation options
                    delegate e)
        = [EvGet delegate name (mkGetOptions "") (subResources s) (Ok current);
           EvUpdate delegate
             (PrepareForUpdate (UpdateStrategy s) transformed current).1 opts
             (subResources s)
             (dyn_Update ctx delegate
                (PrepareForUpdate (UpdateStrategy s) transformed current).1 opts
                (subResources s)
                (dyn_Get ctx delegate name (mkGetOptions "") (subResources s)
                   e).2).1]
      ∧ cy_out (read_modify_write s ctx name objInfo updateValidation options
                  delegate e)
        = Returns
            (dyn_Update ctx delegate
               (PrepareForUpdate (UpdateStrategy s) transformed current).1 opts
               (subResources s)
               (dyn_Get ctx delegate name (mkGetOptions "") (subResources s)
                  e).2).1.
Proof.
  unfold read_modify_write.
  destruct (dyn_Get _ _ _ _ _ _) as [[current|err] e1]; cbn [fst snd];
    [|by left].
  destruct (matches (labelSelector s) current) eqn:Hscope; [|by left].
  destruct (objInfo current) as [[transformed|kind|]|err] eqn:Hinfo;
    try by left.
  cbv zeta. destruct (ValidateUpdate _ _ _) as [|failure failures]; [|by left].
  destruct (updateValidation _ _) as [err|]; [by left|].
  destruct options as [opts|]; [|by left].
  right. by exists current, transformed, opts.
Qed.

(** C2: under the patch verb, Update runs the whole read-modify-write
    cycle under the retry driver.  It stops at an attempt [k] within the
    budget.  Every attempt is one cycle as the specification words it (the
    read of the current object, the label scope, the transform of the
    caller, the hooks of the strategy, the validation of the caller, the
    write of the candidate made from the object this attempt read), run on
    the backing store as the attempt before it left it.  Every attempt
    before [k] failed with a version conflict and was followed by the sleep
    of the computed delay; attempt [k] either did not fail with a conflict,
    and its result is reported at once, or it used up the budget, and its
    conflict is reported.  The log is that of the attempts with a sleep
    between two, and the backing store is left as attempt [k] left it. *)
Theorem Update_patch_retries_on_conflict (s : Store) (ctx : Context)
    (name : string) (objInfo : UpdatedObjectInfo)
    (createValidation : ValidateObjectFunc)
    (updateValidation : ValidateObjectUpdateFunc) (forceAllowCreate : bool)
    (options : option UpdateOptions) (delegate : ResourceInterface)
    (requestInfo : RequestInfo) (w : World Env) :
  getClientResource s ctx = Ok delegate ->
  RequestInfoFrom ctx = Some requestInfo ->
  Verb requestInfo = "patch" ->
  let attempt :=
    fun j => attempt s ctx name objInfo updateValidation options delegate j
               (env w) in
  let log_up_to :=
    fun j => attempts_calls computed_delay s ctx name objInfo updateValidation
               options delegate j (env w) in
  let budget := Nat.max 1 (Z.to_nat (Steps (patchConflictRetryBackoff s))) in
  let run :=
    Update computed_delay s ctx name objInfo createValidation updateValidation
      forceAllowCreate options w in
  ∃ k : nat,
    (k < budget)%nat
    ∧ (∀ j, (j < k)%nat -> conflicted (cy_out (attempt j)) = true)
    ∧ (conflicted (cy_out (attempt k)) = true -> Datatypes.S k = budget)
    ∧ (∀ j,
         let e :=
           attempt_env s ctx name objInfo updateValidation options delegate j
             (env w) in
         let read :=
           dyn_Get ctx delegate name (mkGetOptions "") (subResources s) e in
         cy_calls (attempt j)
         = [EvGet delegate name (mkGetOptions "") (subResources s) read.1]
         ∨ ∃ current transformed opts,
             read = (Ok current, read.2)
             ∧ matches (labelSelector s) current = true
             ∧ objInfo current = Ok (ObjUnstructured transformed)
             ∧ options = Some opts
             ∧ cy_calls (attempt j)
               = [EvGet delegate name (mkGetOptions "") (subResources s)
                    (Ok current);
                  EvUpdate delegate
                    (PrepareForUpdate (UpdateStrategy s) transformed current).1
                    opts (subResources s)
                    (dyn_Update ctx delegate
                       (PrepareForUpdate (UpdateStrategy s) transformed
                          current).1
                       opts (subResources s) read.2).1]
             ∧ cy_out (attempt j)
               = Returns
                   (dyn_Update ctx delegate
                      (PrepareForUpdate (UpdateStrategy s) transformed
                         current).1
                      opts (subResources s) read.2).1)
    ∧ run.1 = update_return (cy_out (attempt k))
    ∧ env run.2 = cy_env (attempt k)
    ∧ calls run.2 = calls w ++ log_up_to k
    ∧ rt run.2 = rt w
    ∧ retry_trace s delegate name (log_up_to k)
    ∧ length (List.filter is_sleep (log_up_to k)) = k
    ∧ length (List.filter is_read (log_up_to k)) = Datatypes.S k.
Proof.
  intros Hres Hinfo Hverb attempt log_up_to budget run.
  destruct (Update_patch_run s ctx name objInfo createValidation
              updateValidation forceAllowCreate options delegate requestInfo w
              Hres Hinfo Hverb) as (k & Hk & Hbefore & Hlast & Hrun).
  exists k. split; [done|].
  split.
  { intros j Hj. specialize (Hbefore j Hj).
    by rewrite attempt_world_cycles in Hbefore. }
  rewrite attempt_world_cycles in Hlast, Hrun by done.
  cbn [fst snd] in Hlast, Hrun.
  split; [done|].
  split; [intros j; apply read_modify_write_calls|].
  subst run. rewrite Hrun. cbn [fst snd env calls rt].
  repeat (split; [done|]).
  destruct (attempt_world_trace (patchConflictRetryBackoff s)
              (doUpdate s ctx name objInfo updateValidation options delegate)
              s delegate name k w) as (evs & Hevs & Htrace & Hsleeps).
  { intros w0.
    destruct (doUpdate_trace s ctx name objInfo updateValidation options
                delegate w0 Hres) as (rest & Hcalls & Hunit).
    eauto. }
  rewrite attempt_world_cycles in Hevs by done. cbn [snd calls] in Hevs.
  apply app_inv_head in Hevs. subst log_up_to. cbv beta. rewrite Hevs.
  split; [done|]. split; [done|].
  by rewrite (retry_trace_counts _ _ _ _ Htrace), Hsleeps.
Qed.

(** C4: without the patch verb, Update runs the read-modify-write unit
    exactly once (one read, at most one write, no sleep), and an error of
    the backing write, a version conflict in particular, is returned as
    it is. *)
Theorem Update_full_runs_once (s : Store) (ctx : Context) (name : string)
    (objInfo : UpdatedObjectInfo) (createValidation : ValidateObjectFunc)
    (updateValidation : ValidateObjectUpdateFunc) (forceAllowCreate : bool)
    (options : option UpdateOptions) (delegate : ResourceInterface)
    (w : World Env) :
  getClientResource s ctx = Ok delegate ->
  (∀ requestInfo, RequestInfoFrom ctx = Some requestInfo ->
                  Verb requestInfo ≠ "patch") ->
  let unit := doUpdate s ctx name objInfo updateValidation options delegate in
  let run :=
    Update computed_delay s ctx name objInfo createValidation updateValidation
      forceAllowCreate options w in
  run = (update_return (unit w).1, (unit w).2)
  ∧ (∃ a,
       calls run.2 = calls w ++ a
       ∧ unit_trace s delegate name a
       ∧ length (List.filter is_read a) = 1%nat
       ∧ List.filter is_sleep a = []
       ∧ (length (List.filter is_write a) <= 1)%nat)
  ∧ ∀ pre ri obj opts subs err,
      calls run.2 = pre ++ [EvUpdate ri obj opts subs (Err err)] ->
      run.1 = Returns (mkUpdateReturn None false (Some err)).
Proof.
  intros Hres Hverb unit run.
  assert (run = (update_return (unit w).1, (unit w).2)) as Hrun
    by by apply Update_full_run.
  split; [done|]. rewrite Hrun. cbn [fst snd]. split.
  - destruct (doUpdate_trace s ctx name objInfo updateValidation options
                delegate w Hres) as (rest & Hcalls & Hunit).
    eexists. split; [done|]. split; [done|].
    by apply unit_trace_counts in Hunit.
  - intros pre ri obj opts subs err Hlast.
    subst unit. by rewrite (doUpdate_write_returned _ _ _ _ _ _ _ _ _ _ _ _ _ _ Hres Hlast).
Qed.

(** Whatever the verb, [Update] returns what the unit it ran last
    returned, and its log is that of a retried run. *)
Lemma Update_trace (s : Store) (ctx : Context) (name : string)
    (objInfo : UpdatedObjectInfo) (createValidation : ValidateObjectFunc)
    (updateValidation : ValidateObjectUpdateFunc) (forceAllowCreate : bool)
    (options : option UpdateOptions) (delegate : ResourceInterface)
    (w : World Env) :
  getClientResource s ctx = Ok delegate ->
  ∃ (out : Outcome (result Unstructured)) (evs : list Event),
    (Update computed_delay s ctx name objInfo createValidation updateValidation
       forceAllowCreate options w).1 = update_return out
    ∧ calls (Update computed_delay s ctx name objInfo createValidation
               updateValidation forceAllowCreate options w).2
      = calls w ++ evs
    ∧ retry_trace s delegate name evs.
Proof.
  intros Hres.
  assert (∃ k,
    Update computed_delay s ctx name objInfo createValidation updateValidation
      forceAllowCreate options w
    = (update_return
         (doUpdate s ctx name objInfo updateValidation options delegate
            (attempt_world computed_delay (patchConflictRetryBackoff s)
               (doUpdate s ctx name objInfo updateValidation options delegate)
               k w)).1,
       (doUpdate s ctx name objInfo updateValidation options delegate
          (attempt_world computed_delay (patchConflictRetryBackoff s)
             (doUpdate s ctx name objInfo updateValidation options delegate)
             k w)).2)) as [k Hrun].
  { destruct (RequestInfoFrom ctx) as [requestInfo|] eqn:Hinfo.
    - destruct (decide (Verb requestInfo = "patch")) as [Hverb|Hverb].
      + destruct (Update_patch_run s ctx name objInfo createValidation
                    updateValidation forceAllowCreate options delegate
                    requestInfo w Hres Hinfo Hverb) as (k & _ & _ & _ & Hrun).
        by exists k.
      + exists 0%nat. apply Update_full_run; [done|].
        intros requestInfo' Hinfo'. rewrite Hinfo in Hinfo'. by simplify_eq.
    - exists 0%nat. apply Update_full_run; [done|].
      intros requestInfo' Hinfo'. rewrite Hinfo in Hinfo'. done. }
  destruct (attempt_world_trace (patchConflictRetryBackoff s)
              (doUpdate s ctx name objInfo updateValidation options delegate)
              s delegate name k w) as (evs & Hevs & Htrace & _).
  { intros w0.
    destruct (doUpdate_trace s ctx name objInfo updateValidation options
                delegate w0 Hres) as (rest & Hcalls & Hunit).
    eauto. }
  eexists _, evs. rewrite Hrun. cbn [fst snd]. done.
Qed.

Lemma retry_trace_head (s : Store) (delegate : ResourceInterface)
    (name : string) (evs : list Event) :
  retry_trace s delegate name evs ->
  ∃ res rest,
    evs = EvGet delegate name (mkGetOptions "") (subResources s) res :: rest.
Proof. intros [a [|]|a d rest [|] _]; cbn; eauto. Qed.

(** C8: what Update returns and does is the same whatever
    [forceAllowCreate] is; the created flag it returns is false; and every
    write it sends comes right after a read of the same name that returned
    an object of the label scope, so it writes nothing for a name the
    backing store does not have. *)
Theorem Update_ignores_forceAllowCreate (s : Store) (ctx : Context)
    (name : string) (objInfo : UpdatedObjectInfo)
    (createValidation : ValidateObjectFunc)
    (updateValidation : ValidateObjectUpdateFunc)
    (options : option UpdateOptions) (w : World Env) :
  Update computed_delay s ctx name objInfo createValidation updateValidation
    true options w
  = Update computed_delay s ctx name objInfo createValidation updateValidation
      false options w
  ∧ ∀ forceAllowCreate : bool,
      (∀ r w',
         Update computed_delay s ctx name objInfo createValidation
           updateValidation forceAllowCreate options w = (Returns r, w') ->
         ur_created r = false)
      ∧ ∃ evs,
          calls (Update computed_delay s ctx name objInfo createValidation
                   updateValidation forceAllowCreate options w).2
          = calls w ++ evs
          ∧ match getClientResource s ctx with
            | Ok delegate => write_follows_read s delegate name evs
            | Err _ => evs = []
            end.
Proof.
  split; [reflexivity|]. intros forceAllowCreate.
  destruct (getClientResource s ctx) as [delegate|err] eqn:Hres.
  2:{ unfold Update. rewrite Hres. split.
      - by intros r w' [= <- _].
      - exists []. by rewrite app_nil_r. }
  destruct (Update_trace s ctx name objInfo createValidation updateValidation
              forceAllowCreate options delegate w Hres)
    as (out & evs & Hout & Hevs & Htrace).
  split.
  - intros r w' Hrun. rewrite Hrun in Hout. cbn [fst] in Hout.
    destruct out as [r0|msg]; cbn [update_return] in Hout; [|done].
    by injection Hout as ->.
  - exists evs. split; [done|]. by apply retry_trace_write_follows_read.
Qed.

(** C6: Create, Delete and DeleteCollection end in a panic, whatever
    their arguments: they never return, neither a value nor an error, and
    they leave the world as it was. *)
Theorem unimplemented_operations_panic (s : Store) (ctx : Context)
    (obj : RuntimeObject) (name : string) (validation : ValidateObjectFunc)
    (createOptions : option CreateOptions)
    (deleteOptions : option DeleteOptions)
    (listOptions : InternalListOptions) (w : World Env) :
  Create s ctx obj validation createOptions w = (Panics "implement me", w)
  ∧ Delete s ctx name validation deleteOptions w = (Panics "implement me", w)
  ∧ DeleteCollection InternalListOptions s ctx validation deleteOptions
      listOptions w = (Panics "implement me", w)
  ∧ (∀ r w', Create s ctx obj validation createOptions w ≠ (Returns r, w'))
  ∧ (∀ r w', Delete s ctx name validation deleteOptions w ≠ (Returns r, w'))
  ∧ (∀ r w', DeleteCollection InternalListOptions s ctx validation
               deleteOptions listOptions w ≠ (Returns r, w')).
Proof. repeat split; intros; discriminate. Qed.
End RegistryProperties.

(** ** The lifecycle of a watch *)

Lemma derived_done_lookup (r : Runtime) (watchCtx : nat) :
  derived_done r watchCtx = true
  ↔ ∃ d, contexts r !! watchCtx = Some d
         ∧ (dc_cancelled d = true ∨ dc_parent d ∈ ended r).
Proof.
  unfold derived_done. destruct (contexts r !! watchCtx) as [d|].
  - rewrite orb_true_iff, bool_decide_eq_true. split.
    + intros Hdone. by exists d.
    + by intros (d' & [= <-] & Hdone).
  - split; [done|]. by intros (d & Hd & _).
Qed.

(** A derived context that is done stays done. *)
Lemma derived_done_step (r r' : Runtime) (watchCtx : nat) :
  rt_step r r' -> derived_done r watchCtx = true -> derived_done r' watchCtx = true.
Proof.
  intros Hstep. rewrite !derived_done_lookup. intros (d & Hd & Hdone).
  destruct Hstep as [ch r|c r|stop ctx r|i r r' Hwaiter];
    [| | |destruct Hwaiter as [g r Hg Hsel Hstop|g r Hg Hsel Hend]];
    cbn [contexts ended watch_setup waiter_exits cancelFn].
  - by exists d.
  - exists d. split; [done|]. destruct Hdone; [by left|right; set_solver].
  - exists d. split; [by apply lookup_app_l_Some|done].
  - destruct (decide (wt_cancels g = watchCtx)) as [->|Hne].
    + exists (cancel_context d). rewrite list_lookup_alter_eq, Hd. split; [done|by left].
    + exists d. by rewrite list_lookup_alter_ne.
  - by exists d.
Qed.

Lemma derived_done_reachable (r r' : Runtime) (watchCtx : nat) :
  reachable r r' -> derived_done r watchCtx = true -> derived_done r' watchCtx = true.
Proof. induction 1; eauto using derived_done_step. Qed.

(** [Watch] sets the invariant up. *)
Lemma watch_invariant_setup (stop ctx : nat) (r : Runtime) :
  watch_invariant stop ctx (length (contexts r)) (length (goroutines r))
    (watch_setup stop ctx r).
Proof.
  unfold watch_invariant, watch_setup. cbn [contexts goroutines]. split.
  - exists false. by rewrite lookup_app_r, Nat.sub_diag.
  - exists Selecting. by rewrite lookup_app_r, Nat.sub_diag.
Qed.

(** Every step keeps it. *)
Lemma watch_invariant_step (stop ctx watchCtx i : nat) (r r' : Runtime) :
  rt_step r r' ->
  watch_invariant stop ctx watchCtx i r ->
  watch_invariant stop ctx watchCtx i r'.
Proof.
  intros Hstep ([cancelled Hctx] & state & Hwaiter & Hexited).
  assert (state = Exited -> derived_done r' watchCtx = true) as Hexited'
    by (intros E; eapply derived_done_step; eauto).
  destruct Hstep as [ch r|c r|stop' ctx' r|j r r' Hmove];
    [| | |destruct Hmove as [g r Hg Hsel Hstop|g r Hg Hsel Hend]];
    unfold watch_invariant;
    cbn [contexts goroutines ended watch_setup waiter_exits cancelFn].
  - eauto.
  - eauto.
  - split; [exists cancelled; by apply lookup_app_l_Some|].
    exists state. split; [by apply lookup_app_l_Some|done].
  - split.
    + destruct (decide (wt_cancels g = watchCtx)) as [->|Hne].
      * exists true. by rewrite list_lookup_alter_eq, Hctx.
      * exists cancelled. by rewrite list_lookup_alter_ne.
    + destruct (decide (j = i)) as [->|Hne].
      * exists Exited. rewrite list_lookup_alter_eq, Hwaiter. split; [done|].
        intros _. rewrite Hwaiter in Hg. simplify_eq. cbn [wt_cancels].
        apply derived_done_lookup. exists (mkDerivedContext ctx true).
        cbn [contexts cancelFn waiter_exits ended].
        rewrite list_lookup_alter_eq, Hctx.
        split; [done|by left].
      * exists state. by rewrite list_lookup_alter_ne.
  - split; [by exists cancelled|].
    destruct (decide (j = i)) as [->|Hne].
    + exists Exited. rewrite list_lookup_alter_eq, Hwaiter. split; [done|].
      intros _. rewrite Hwaiter in Hg. simplify_eq. cbn [wt_ctx] in Hend.
      apply derived_done_lookup. exists (mkDerivedContext ctx cancelled).
      split; [done|by right].
    + exists state. by rewrite list_lookup_alter_ne.
Qed.

Lemma watch_invariant_reachable (stop ctx watchCtx i : nat) (r r' : Runtime) :
  reachable r r' ->
  watch_invariant stop ctx watchCtx i r ->
  watch_invariant stop ctx watchCtx i r'.
Proof. induction 1; eauto using watch_invariant_step. Qed.

(** Under the invariant, the end of the context of the caller has the
    derived context done. *)
Lemma watch_done_when_ctx_ends (stop ctx watchCtx i : nat) (r : Runtime) :
  watch_invariant stop ctx watchCtx i r ->
  ctx ∈ ended r ->
  derived_done r watchCtx = true.
Proof.
  intros ([cancelled Hctx] & _) Hended. apply derived_done_lookup.
  exists (mkDerivedContext ctx cancelled). split; [done|by right].
Qed.

(** Under the invariant, once the stop channel is closed the derived
    context is done, or the goroutine is ready to move. *)
Lemma watch_enabled_when_stopped (stop ctx watchCtx i : nat) (r : Runtime) :
  watch_invariant stop ctx watchCtx i r ->
  stop ∈ closed r ->
  derived_done r watchCtx = true ∨ ∃ r', waiter_step i r r'.
Proof.
  intros (_ & state & Hwaiter & Hexited) Hclosed.
  destruct state; [right|left; by apply Hexited].
  eexists. by eapply (waiter_stop i _ r Hwaiter).
Qed.

(** Under the invariant, whichever case the goroutine takes, the derived
    context is done after it. *)
Lemma watch_done_after_waiter (stop ctx watchCtx i : nat) (r r' : Runtime) :
  watch_invariant stop ctx watchCtx i r ->
  waiter_step i r r' ->
  derived_done r' watchCtx = true.
Proof.
  intros Hinv Hstep.
  assert (watch_invariant stop ctx watchCtx i r') as (_ & state & Hwaiter & Hexited)
    by (eapply watch_invariant_step; [by apply (step_waiter i)|done]).
  apply Hexited.
  destruct Hinv as (_ & state0 & Hwaiter0 & _).
  destruct Hstep as [g r Hg _ _|g r Hg _ _];
    cbn [goroutines waiter_exits cancelFn] in Hwaiter;
    rewrite list_lookup_alter_eq, Hwaiter0 in Hwaiter;
    cbn in Hwaiter; unfold exit_waiter in Hwaiter; cbn in Hwaiter;
    by simplify_eq.
Qed.

(** In a well-formed runtime [Watch] sets up the invariant of who can
    cancel its derived context. *)
Lemma cancel_invariant_setup (stop ctx : nat) (r : Runtime) :
  wf_runtime r ->
  cancel_invariant stop (length (contexts r)) (watch_setup stop ctx r).
Proof.
  intros Hwf. unfold cancel_invariant, wf_runtime, watch_setup.
  cbn [contexts goroutines closed]. rewrite length_app. cbn [length].
  split; [|split; [lia|split]].
  - intros j g [Hg|[_ Hg]]%lookup_app_Some.
    + apply Hwf in Hg. lia.
    + destruct (j - length (goroutines r))%nat; [|done].
      cbn in Hg. simplify_eq. cbn. lia.
  - intros j g [Hg|[_ Hg]]%lookup_app_Some Hcancels.
    + apply Hwf in Hg. lia.
    + destruct (j - length (goroutines r))%nat; [|done].
      cbn in Hg. by simplify_eq.
  - intros d Hd Hcancelled.
    rewrite lookup_app_r, Nat.sub_diag in Hd by done.
    cbn in Hd. by simplify_eq.
Qed.

(** Every step keeps it. *)
Lemma cancel_invariant_step (stop watchCtx : nat) (r r' : Runtime) :
  rt_step r r' ->
  cancel_invariant stop watchCtx r ->
  cancel_invariant stop watchCtx r'.
Proof.
  intros Hstep (Hwf & Hlt & Hholders & Hcancelled).
  destruct Hstep as [ch r|c r|stop' ctx' r|j r r' Hmove];
    [| | |destruct Hmove as [g r Hg Hsel Hstop|g r Hg Hsel Hend]];
    unfold cancel_invariant, wf_runtime;
    cbn [contexts goroutines closed watch_setup waiter_exits cancelFn].
  - repeat split; try done. intros d Hd Hc. specialize (Hcancelled d Hd Hc).
    set_solver.
  - done.
  - rewrite length_app. cbn [length]. split; [|split; [lia|split]].
    + intros i g [Hg|[_ Hg]]%lookup_app_Some.
      * apply Hwf in Hg. lia.
      * destruct (i - length (goroutines r))%nat; [|done].
        cbn in Hg. simplify_eq. cbn. lia.
    + intros i g [Hg|[_ Hg]]%lookup_app_Some Hcancels; [by eapply Hholders|].
      destruct (i - length (goroutines r))%nat; [|done].
      cbn in Hg. simplify_eq. cbn in Hlt. lia.
    + intros d Hd. rewrite lookup_app_l in Hd by done. by apply Hcancelled.
  - rewrite length_alter. split; [|split; [done|split]].
    + intros i g' Hg'. rewrite list_lookup_alter in Hg'.
      case_decide; [|by eapply Hwf]. subst i. rewrite Hg in Hg'.
      cbn in Hg'. simplify_eq. cbn. by eapply Hwf.
    + intros i g' Hg' Hcancels. rewrite list_lookup_alter in Hg'.
      case_decide; [|by eapply Hholders]. subst i. rewrite Hg in Hg'.
      cbn in Hg'. simplify_eq. cbn in *. by eapply Hholders.
    + intros d Hd Hc. rewrite list_lookup_alter in Hd. case_decide as Hwho.
      * rewrite <- (Hholders j g Hg Hwho). done.
      * by eapply Hcancelled.
  - split; [|split; [done|split; [|done]]].
    + intros i g' Hg'. rewrite list_lookup_alter in Hg'.
      case_decide; [|by eapply Hwf]. subst i. rewrite Hg in Hg'.
      cbn in Hg'. simplify_eq. cbn. by eapply Hwf.
    + intros i g' Hg' Hcancels. rewrite list_lookup_alter in Hg'.
      case_decide; [|by eapply Hholders]. subst i. rewrite Hg in Hg'.
      cbn in Hg'. simplify_eq. cbn in *. by eapply Hholders.
Qed.

Lemma cancel_invariant_reachable (stop watchCtx : nat) (r r' : Runtime) :
  reachable r r' ->
  cancel_invariant stop watchCtx r ->
  cancel_invariant stop watchCtx r'.
Proof. induction 1; eauto using cancel_invariant_step. Qed.

(** Under both invariants, a derived context is done only when one of the
    two signals has fired. *)
Lemma watch_done_only_by_signals (stop ctx watchCtx i : nat) (r : Runtime) :
  watch_invariant stop ctx watchCtx i r ->
  cancel_invariant stop watchCtx r ->
  derived_done r watchCtx = true ->
  ctx ∈ ended r ∨ stop ∈ closed r.
Proof.
  intros ([cancelled Hctx] & _) (_ & _ & _ & Hcancelled).
  rewrite derived_done_lookup. intros (d & Hd & [Hc|Hparent]).
  - right. by eapply Hcancelled.
  - left. rewrite Hctx in Hd. by simplify_eq.
Qed.

Section WatchProperties.
Context {Env : Type} `{DynamicClient Env}.
Variable InternalListOptions : Type.
Variable convert : InternalListOptions -> result ListOptions.
Variable computed_delay : Backoff -> nat -> Z.

(** What [Watch] does to the runtime and to the log. *)
Lemma Watch_run (s : Store) (range : list (string * string)) (ctx : Context)
    (options : InternalListOptions) (v1ListOptions : ListOptions)
    (delegate : ResourceInterface) (w : World Env) :
  convert options = Ok v1ListOptions ->
  getClientResource s ctx = Ok delegate ->
  rt (Watch InternalListOptions convert s range ctx options w).2
  = watch_setup (stopWatchesCh s) (ctx_id ctx) (rt w)
  ∧ ∃ res opts,
      (Watch InternalListOptions convert s range ctx options w).1 = Returns res
      ∧ calls (Watch InternalListOptions convert s range ctx options w).2
        = calls w ++ [EvWatch delegate (length (contexts (rt w))) opts res].
Proof.
  intros Hconv Hres. unfold Watch. rewrite Hconv, Hres.
  unfold bind, WithCancel, go, call_Watch. cbn.
  destruct (dyn_Watch _ _ _) as [res e]. cbn. split; [done|]. eauto.
Qed.

(** C5, amended: a Watch call that gets past the conversion of its
    options and the resolution of the endpoint derives one cancellable
    context from the context of the caller, starts exactly one goroutine
    that waits on the stop channel and on the Done channel of the caller,
    and makes the backing call under the derived context.  Watch itself
    never cancels the derived context, whatever the backing call returns.
    From then on: when the context of the caller has ended the derived
    context is done; when the stop channel is closed the derived context
    is done or the goroutine is ready to move; whichever case the
    goroutine takes, the derived context is done after it; a derived
    context that is done stays done; and, in a runtime where every
    goroutine cancels a context that exists, the derived context is done
    only when one of the two signals has fired. *)
Theorem Watch_cancelled_by_signals (s : Store) (range : list (string * string))
    (ctx : Context) (options : InternalListOptions)
    (v1ListOptions : ListOptions) (delegate : ResourceInterface)
    (w : World Env) :
  convert options = Ok v1ListOptions ->
  getClientResource s ctx = Ok delegate ->
  let run := Watch InternalListOptions convert s range ctx options w in
  let watchCtx := length (contexts (rt w)) in
  let waiter := length (goroutines (rt w)) in
  contexts (rt run.2) = contexts (rt w) ++ [mkDerivedContext (ctx_id ctx) false]
  ∧ goroutines (rt run.2)
    = goroutines (rt w) ++
      [mkWaiter (stopWatchesCh s) (ctx_id ctx) watchCtx Selecting]
  ∧ (∃ res opts,
       run.1 = Returns res
       ∧ calls run.2 = calls w ++ [EvWatch delegate watchCtx opts res])
  ∧ derived_done (rt run.2) watchCtx = bool_decide (ctx_id ctx ∈ ended (rt w))
  ∧ ∀ r, reachable (rt run.2) r ->
      (ctx_id ctx ∈ ended r -> derived_done r watchCtx = true)
      ∧ (stopWatchesCh s ∈ closed r ->
         derived_done r watchCtx = true ∨ ∃ r', waiter_step waiter r r')
      ∧ (∀ r', waiter_step waiter r r' -> derived_done r' watchCtx = true)
      ∧ (derived_done r watchCtx = true ->
         ∀ r', reachable r r' -> derived_done r' watchCtx = true)
      ∧ (wf_runtime (rt w) ->
         derived_done r watchCtx = true ->
         ctx_id ctx ∈ ended r ∨ stopWatchesCh s ∈ closed r).
Proof.
  intros Hconv Hres run watchCtx waiter.
  destruct (Watch_run s range ctx options v1ListOptions delegate w Hconv Hres)
    as (Hrt & Hcall).
  fold run in Hrt, Hcall. rewrite Hrt.
  split; [done|]. split; [done|]. split; [done|]. split.
  - unfold derived_done, watch_setup. cbn [contexts ended].
    by rewrite lookup_app_r, Nat.sub_diag.
  - intros r Hreach.
    assert (watch_invariant (stopWatchesCh s) (ctx_id ctx) watchCtx waiter r)
      as Hinv.
    { eapply watch_invariant_reachable; [done|]. apply watch_invariant_setup. }
    split; [by eapply watch_done_when_ctx_ends|].
    split; [by eapply watch_enabled_when_stopped|].
    split; [intros r'; by eapply watch_done_after_waiter|].
    split; [intros Hdone r' Hreach'; by eapply derived_done_reachable|].
    intros Hwf. eapply watch_done_only_by_signals; [done|].
    eapply cancel_invariant_reachable; [done|]. by apply cancel_invariant_setup.
Qed.

(** C7, amended: a wildcard tenant identity resolves to the endpoint of
    the all-tenants cluster, and that resolution serves every operation
    alike: List, Watch, Get and Update all send their backing calls to
    that endpoint. *)
Theorem wildcard_resolution_serves_every_operation (s : Store) (ctx : Context)
    (cluster : Cluster) (name : string) (opts : GetOptions)
    (objInfo : UpdatedObjectInfo) (createValidation : ValidateObjectFunc)
    (updateValidation : ValidateObjectUpdateFunc) (forceAllowCreate : bool)
    (updateOptions : option UpdateOptions) (w : World Env) :
  ValidClusterFrom ctx = Ok cluster ->
  cl_Wildcard cluster = true ->
  (CreateStrategy_NamespaceScoped s = true -> is_Some (NamespaceFrom ctx)) ->
  ∃ delegate,
    getClientResource s ctx = Ok delegate
    ∧ ri_Cluster delegate = logicalcluster_Wildcard
    ∧ (∀ range options v1ListOptions,
         convert options = Ok v1ListOptions ->
         ∃ o, calls (List InternalListOptions convert s range ctx options w).2
              = calls w ++ [EvList delegate o])
    ∧ (∀ range options v1ListOptions,
         convert options = Ok v1ListOptions ->
         ∃ watchCtx o res,
           calls (Watch InternalListOptions convert s range ctx options w).2
           = calls w ++ [EvWatch delegate watchCtx o res])
    ∧ (∃ res,
         calls (Get s ctx name (Some opts) w).2
         = calls w ++ [EvGet delegate name opts (subResources s) res])
    ∧ ∃ res rest,
        calls (Update computed_delay s ctx name objInfo createValidation
                 updateValidation forceAllowCreate updateOptions w).2
        = calls w ++
          EvGet delegate name (mkGetOptions "") (subResources s) res :: rest.
Proof.
  intros Hcluster Hwild Hns.
  assert (∃ delegate, getClientResource s ctx = Ok delegate
                      ∧ ri_Cluster delegate = logicalcluster_Wildcard)
    as (delegate & Hres & Hname).
  { unfold getClientResource. rewrite Hcluster, Hwild.
    destruct (CreateStrategy_NamespaceScoped s); [|by eexists].
    destruct (Hns eq_refl) as [namespace ->]. by eexists. }
  exists delegate. split; [done|]. split; [done|].
  split; [|split; [|split]].
  - intros range options v1ListOptions Hconv. eexists.
    by apply (List_calls InternalListOptions convert).
  - intros range options v1ListOptions Hconv.
    destruct (Watch_calls InternalListOptions convert s range ctx options
                v1ListOptions delegate w Hconv Hres) as [res Hcalls].
    eauto.
  - rewrite (Get_unfold _ _ _ _ delegate) by done. cbv zeta.
    exists (dyn_Get ctx delegate name opts (subResources s) (env w)).1.
    destruct (dyn_Get _ _ _ _ _ _).1 as [obj|err]; [|done].
    by destruct (matches _ _).
  - destruct (Update_trace computed_delay s ctx name objInfo createValidation
                updateValidation forceAllowCreate updateOptions delegate w Hres)
      as (out & evs & _ & Hevs & Htrace).
    destruct (retry_trace_head _ _ _ _ Htrace) as (res & rest & ->).
    eauto.
Qed.
End WatchProperties.

(** ** The operations on the simulated store *)

Import Sim.

(** C9: an object that has no label [env] at all passes [matches] for the
    scope that requires [env] with the empty value, since a Go map reads an
    absent key as the empty string; and Get returns the object. *)
Theorem matches_missing_key_empty_value :
  GetLabels bare !! "env" = None
  ∧ matches (Some {[ "env" := "" ]}) bare = true
  ∧ (Get (store (Some {[ "env" := "" ]})) (context tenant "get") "Z"
       (Some (mkGetOptions "")) (world [bare] [] false)).1
    = Returns (Ok bare).
Proof. by vm_compute. Qed.

(** The scenario of the specification: under the scope env=prod, Get of an
    object labelled env=dev is not found, as is Get of a name the store
    does not have, and Get of an object labelled env=prod returns it. *)
Example Get_scenario :
  (Get (store prod) (context tenant "get") "Y" (Some (mkGetOptions ""))
     (world [X; Y] [] false)).1
  = Returns (Err (NewNotFound (mkGroupResource "apps" "deployments") "Y"))
  ∧ (Get (store prod) (context tenant "get") "W" (Some (mkGetOptions ""))
       (world [X; Y] [] false)).1
    = Returns (Err (NewNotFound (mkGroupResource "apps" "deployments") "W"))
  ∧ (Get (store prod) (context tenant "get") "X" (Some (mkGetOptions ""))
       (world [X; Y] [] false)).1
    = Returns (Ok X).
Proof. by vm_compute. Qed.

(** The scenario of the specification: a patch of an object that a rival
    rewrites twice succeeds at the third of three attempts, from the read
    of the third attempt. *)
Example Update_patch_scenario :
  let run :=
    Update delay (store prod) (context tenant "patch") "X" set_tier accept_create
      accept false update_options
      (world [X] [object "X" "prod" "2"; object "X" "prod" "3"] false) in
  (∃ obj,
     run.1 = Returns (mkUpdateReturn (Some obj) false None)
     ∧ GetResourceVersion obj = "3+"
     ∧ GetLabels obj !! "tier" = Some "web")
  ∧ List.map is_read (calls run.2)
    = [true; false; false; true; false; false; true; false]
  ∧ List.filter is_sleep (calls run.2) = [EvSleep 10; EvSleep 20].
Proof. split; [eexists; by vm_compute | by vm_compute]. Qed.

(** *** The theorems at concrete requests *)



(** List and Watch under the scope env=prod with the selector a=b. *)
Lemma selector_pushdown_witness :
  ∃ sent : string,
    sent = "a=b,env=prod"
    ∧ calls (List ListOptions convert (store prod) [("env", "prod")]
               (context tenant "list") (list_options "a=b")
               (world [X; Y] [] false)).2
      = [EvList (mkResourceInterface "root:org:ws" gvr None) (list_options sent)]
    ∧ contains sent "env=prod".
Proof.
  assert (range_of (labelSelector (store prod)) [("env", "prod")]) as Hrange
    by (vm_compute; reflexivity).
  assert (convert (list_options "a=b") = Ok (list_options "a=b")) as Hconv
    by reflexivity.
  assert (getClientResource (store prod) (context tenant "list")
          = Ok (mkResourceInterface "root:org:ws" gvr None)) as Hres
    by reflexivity.
  destruct (selector_pushdown ListOptions convert (store prod) [("env", "prod")]
              (context tenant "list") (list_options "a=b") (list_options "a=b")
              _ (world [X; Y] [] false) Hrange Hconv Hres)
    as (sent & Hsent & Hlist & _ & _ & Hscope).
  exists sent. split; [exact Hsent|]. split; [exact Hlist|].
  refine (proj2 (Hscope "env" "prod" _)). vm_compute. reflexivity.
Defined.

(** List and Watch of a store without label scope, with the selector a=b. *)
Lemma empty_scope_trailing_comma_witness :
  ∃ sent : string,
    sent = "a=b,"
    ∧ calls (List ListOptions convert (store None) []
               (context tenant "list") (list_options "a=b")
               (world [X; Y] [] false)).2
      = [EvList (mkResourceInterface "root:org:ws" gvr None) (list_options sent)].
Proof.
  assert (size (default ∅ (labelSelector (store None))) = 0%nat) as Hempty
    by (vm_compute; reflexivity).
  assert (convert (list_options "a=b") = Ok (list_options "a=b")) as Hconv
    by reflexivity.
  assert (getClientResource (store None) (context tenant "list")
          = Ok (mkResourceInterface "root:org:ws" gvr None)) as Hres
    by reflexivity.
  destruct (empty_scope_trailing_comma ListOptions convert (store None) []
              (context tenant "list") (list_options "a=b") (list_options "a=b")
              _ (world [X; Y] [] false) Hempty Hconv Hres)
    as (sent & Hsent & Hlist & _).
  exists sent. split; [exact Hsent | exact Hlist].
Defined.

(** A patch of X while a rival rewrites it twice, with three attempts:
    each attempt reads the version the rival left and writes the candidate
    made from it, and the third write is accepted. *)
Lemma Update_patch_retries_on_conflict_witness :
  (Update delay (store prod) (context tenant "patch") "X" set_tier
     accept_create accept false update_options
     (world [X] [object "X" "prod" "2"; object "X" "prod" "3"] false)).1
  = Returns (mkUpdateReturn (Some (Cases.patched "3+")) false None)
  ∧ calls (Update delay (store prod) (context tenant "patch") "X" set_tier
             accept_create accept false update_options
             (world [X] [object "X" "prod" "2"; object "X" "prod" "3"] false)).2
    = [EvGet (mkResourceInterface "root:org:ws" gvr None) "X"
         (mkGetOptions "") [] (Ok (object "X" "prod" "1"));
       EvUpdate (mkResourceInterface "root:org:ws" gvr None)
         (Cases.patched "1") (mkUpdateOptions [] "") []
         (Err (NewConflict (mkGroupResource "apps" "deployments") "X"));
       EvSleep 10;
       EvGet (mkResourceInterface "root:org:ws" gvr None) "X"
         (mkGetOptions "") [] (Ok (object "X" "prod" "2"));
       EvUpdate (mkResourceInterface "root:org:ws" gvr None)
         (Cases.patched "2") (mkUpdateOptions [] "") []
         (Err (NewConflict (mkGroupResource "apps" "deployments") "X"));
       EvSleep 20;
       EvGet (mkResourceInterface "root:org:ws" gvr None) "X"
         (mkGetOptions "") [] (Ok (object "X" "prod" "3"));
       EvUpdate (mkResourceInterface "root:org:ws" gvr None)
         (Cases.patched "3") (mkUpdateOptions [] "") []
         (Ok (Cases.patched "3+"))].
Proof.
  assert (getClientResource (store prod) (context tenant "patch")
          = Ok (mkResourceInterface "root:org:ws" gvr None)) as Hres
    by reflexivity.
  assert (RequestInfoFrom (context tenant "patch") = Some (mkRequestInfo "patch"))
    as Hinfo by reflexivity.
  assert (Verb (mkRequestInfo "patch") = "patch") as Hverb by reflexivity.
  destruct (Update_patch_retries_on_conflict delay (store prod)
              (context tenant "patch") "X" set_tier accept_create accept false
              update_options _ _
              (world [X] [object "X" "prod" "2"; object "X" "prod" "3"] false)
              Hres Hinfo Hverb)
    as (k & Hk & _ & Hlast & _ & Hrun & _ & Hcalls & _).
  assert (k = 2%nat) as ->.
  { destruct k as [|[|[|k]]]; [| |reflexivity|vm_compute in Hk; lia].
    - assert (1 = 3)%nat as Hbudget by (apply Hlast; vm_compute; reflexivity).
      discriminate Hbudget.
    - assert (2 = 3)%nat as Hbudget by (apply Hlast; vm_compute; reflexivity).
      discriminate Hbudget. }
  rewrite Hrun, Hcalls. split; vm_compute; reflexivity.
Defined.

(** A full update of X while a rival rewrites it. *)
Lemma Update_full_runs_once_witness :
  ∃ a : list Event,
    calls (Update delay (store prod) (context tenant "update") "X" set_tier
             accept_create accept false update_options
             (world [X] [object "X" "prod" "2"] false)).2
    = a
    ∧ length (List.filter is_read a) = 1%nat
    ∧ List.filter is_sleep a = [].
Proof.
  assert (getClientResource (store prod) (context tenant "update")
          = Ok (mkResourceInterface "root:org:ws" gvr None)) as Hres
    by reflexivity.
  assert (∀ requestInfo,
            RequestInfoFrom (context tenant "update") = Some requestInfo ->
            Verb requestInfo ≠ "patch") as Hverb.
  { intros requestInfo [= <-]. vm_compute. discriminate. }
  destruct (Update_full_runs_once delay (store prod) (context tenant "update")
              "X" set_tier accept_create accept false update_options _
              (world [X] [object "X" "prod" "2"] false) Hres Hverb)
    as (_ & (a & Hcalls & _ & Hreads & Hsleeps & _) & _).
  exists a. split; [exact Hcalls|]. split; [exact Hreads | exact Hsleeps].
Defined.

(** A watch under the scope env=prod that the backing client opens. *)
Lemma Watch_cancelled_by_signals_witness :
  contexts (rt (Watch ListOptions convert (store prod) [("env", "prod")]
                  (context tenant "watch") (list_options "")
                  (world [X] [] false)).2)
  = [mkDerivedContext 0 false]
  ∧ goroutines (rt (Watch ListOptions convert (store prod) [("env", "prod")]
                      (context tenant "watch") (list_options "")
                      (world [X] [] false)).2)
    = [mkWaiter 0 0 0 Selecting].
Proof.
  assert (convert (list_options "") = Ok (list_options "")) as Hconv
    by reflexivity.
  assert (getClientResource (store prod) (context tenant "watch")
          = Ok (mkResourceInterface "root:org:ws" gvr None)) as Hres
    by reflexivity.
  destruct (Watch_cancelled_by_signals ListOptions convert (store prod)
              [("env", "prod")] (context tenant "watch") (list_options "")
              (list_options "") _ (world [X] [] false) Hconv Hres)
    as (Hcontexts & Hgoroutines & _).
  split; [exact Hcontexts | exact Hgoroutines].
Defined.

(** C5, as stated, fails when the backing watch call fails at once: Watch
    returns the error and leaves the derived context live and its
    goroutine in its select, where it cannot move as long as neither
    signal has fired. *)
Lemma Watch_refused_leaves_context_live :
  (Watch ListOptions convert (store prod) [("env", "prod")]
     (context tenant "watch") (list_options "") (world [X] [] true)).1
  = Returns (Err (ErrOther "watch refused"))
  ∧ contexts (rt (Watch ListOptions convert (store prod) [("env", "prod")]
                    (context tenant "watch") (list_options "")
                    (world [X] [] true)).2)
    = [mkDerivedContext 0 false]
  ∧ derived_done
      (rt (Watch ListOptions convert (store prod) [("env", "prod")]
             (context tenant "watch") (list_options "") (world [X] [] true)).2)
      0 = false
  ∧ goroutines (rt (Watch ListOptions convert (store prod) [("env", "prod")]
                      (context tenant "watch") (list_options "")
                      (world [X] [] true)).2)
    = [mkWaiter 0 0 0 Selecting]
  ∧ ¬ ∃ r', waiter_step 0
              (rt (Watch ListOptions convert (store prod) [("env", "prod")]
                     (context tenant "watch") (list_options "")
                     (world [X] [] true)).2)
              r'.
Proof.
  repeat (split; [by vm_compute|]).
  intros [r' Hstep].
  inversion Hstep as [g r Hg Hsel Hstop|g r Hg Hsel Hend]; subst;
    cbn in Hg; simplify_eq; cbn in *; set_solver.
Qed.

(** A wildcard request to a cluster-scoped store. *)
Lemma wildcard_resolution_serves_every_operation_witness :
  ∃ delegate,
    getClientResource (store prod) (context wildcard "get") = Ok delegate
    ∧ ri_Cluster delegate = "*"
    ∧ ∃ res,
        calls (Get (store prod) (context wildcard "get") "X"
                 (Some (mkGetOptions "")) (world [X] [] false)).2
        = [EvGet delegate "X" (mkGetOptions "") [] res].
Proof.
  assert (ValidClusterFrom (context wildcard "get") = Ok wildcard) as Hcluster
    by reflexivity.
  assert (cl_Wildcard wildcard = true) as Hwild by reflexivity.
  assert (CreateStrategy_NamespaceScoped (store prod) = true ->
          is_Some (NamespaceFrom (context wildcard "get"))) as Hns
    by (vm_compute; discriminate).
  destruct (wildcard_resolution_serves_every_operation ListOptions convert delay
              (store prod) (context wildcard "get") wildcard "X"
              (mkGetOptions "") set_tier accept_create accept false
              update_options (world [X] [] false) Hcluster Hwild Hns)
    as (delegate & Hres & Hname & _ & _ & Hget & _).
  exists delegate. split; [exact Hres|]. split; [exact Hname | exact Hget].
Defined.

(** C7, as stated, fails: under a wildcard identity Get and Update are not
    refused; they are forwarded to the all-tenants endpoint, and return
    what it holds. *)
Lemma wildcard_Get_and_Update_forwarded :
  cl_Wildcard wildcard = true
  ∧ (Get (store prod) (context wildcard "get") "X" (Some (mkGetOptions ""))
       (world [X] [] false)).1
    = Returns (Ok X)
  ∧ calls (Get (store prod) (context wildcard "get") "X" (Some (mkGetOptions ""))
             (world [X] [] false)).2
    = [EvGet (mkResourceInterface "*" gvr None) "X" (mkGetOptions "") [] (Ok X)]
  ∧ ∃ obj,
      (Update delay (store prod) (context wildcard "update") "X" set_tier
         accept_create accept false update_options (world [X] [] false)).1
      = Returns (mkUpdateReturn (Some (bump obj)) false None)
      ∧ List.filter is_write
          (calls (Update delay (store prod) (context wildcard "update") "X"
                    set_tier accept_create accept false update_options
                    (world [X] [] false)).2)
        = [EvUpdate (mkResourceInterface "*" gvr None) obj
             (mkUpdateOptions [] "") [] (Ok (bump obj))].
Proof.
  repeat (split; [by vm_compute|]).
  exists (mkUnstructured "X" "default" {[ "env" := "prod"; "tier" := "web" ]}
            "1" gvk []).
  by vm_compute.
Qed.

(** * Further properties of the store *)

Section FurtherRegistryProperties.
Context {Env : Type} `{DynamicClient Env}.
Variable InternalListOptions : Type.
Variable convert : InternalListOptions -> result ListOptions.
Variable computed_delay : Backoff -> nat -> Z.

(** X1: when the endpoint cannot be resolved, Get, List, Watch and Update
    return the error of the resolution and leave the world as it was: no
    call reaches the backing client, and Watch derives no context and
    starts no goroutine.  Get returns the error even with nil options. *)
Theorem resolution_failure_stops_every_operation (s : Store) (ctx : Context)
    (name : string) (getOptions : option GetOptions)
    (range : list (string * string)) (objInfo : UpdatedObjectInfo)
    (createValidation : ValidateObjectFunc)
    (updateValidation : ValidateObjectUpdateFunc) (forceAllowCreate : bool)
    (updateOptions : option UpdateOptions) (err : error) (w : World Env) :
  getClientResource s ctx = Err err ->
  Get s ctx name getOptions w = (Returns (Err err), w)
  ∧ Update computed_delay s ctx name objInfo createValidation updateValidation
      forceAllowCreate updateOptions w
    = (Returns (mkUpdateReturn None false (Some err)), w)
  ∧ ∀ options v1ListOptions,
      convert options = Ok v1ListOptions ->
      List InternalListOptions convert s range ctx options w
      = (Returns (Err err), w)
      ∧ Watch InternalListOptions convert s range ctx options w
        = (Returns (Err err), w).
Proof.
  intros Hres. unfold Get, Update, List, Watch. rewrite Hres.
  split; [done|]. split; [done|].
  intros options v1ListOptions ->. done.
Qed.

(** X2: when the conversion of the list options fails, List and Watch
    return its error and leave the world as it was, whatever the context
    holds: the conversion is checked before the tenant identity. *)
Theorem conversion_failure_stops_List_and_Watch (s : Store)
    (range : list (string * string)) (ctx : Context)
    (options : InternalListOptions) (err : error) (w : World Env) :
  convert options = Err err ->
  List InternalListOptions convert s range ctx options w = (Returns (Err err), w)
  ∧ Watch InternalListOptions convert s range ctx options w
    = (Returns (Err err), w).
Proof. intros Hconv. unfold List, Watch. by rewrite Hconv. Qed.

(** X3: for a cluster-scoped resource the namespace of the context plays
    no part in the resolution of the endpoint: two contexts with the same
    tenant identity resolve alike, to an endpoint without namespace or to
    the same error, whatever namespace and request info they carry.  Get
    and List hand the context on to the backing client and read nothing
    else from it: where the backing client answers the two contexts alike
    in this state, so do Get and List. *)
Theorem cluster_scoped_ignores_namespace (s : Store) (ctx1 ctx2 : Context)
    (name : string) (getOptions : option GetOptions)
    (range : list (string * string)) (options : InternalListOptions)
    (w : World Env) :
  CreateStrategy_NamespaceScoped s = false ->
  ValidClusterFrom ctx1 = ValidClusterFrom ctx2 ->
  getClientResource s ctx1 = getClientResource s ctx2
  ∧ (∀ delegate, getClientResource s ctx1 = Ok delegate ->
                 ri_Namespace delegate = None)
  ∧ ((∀ delegate opts,
        dyn_Get ctx1 delegate name opts (subResources s) (env w)
        = dyn_Get ctx2 delegate name opts (subResources s) (env w)) ->
     Get s ctx1 name getOptions w = Get s ctx2 name getOptions w)
  ∧ ((∀ delegate sent,
        dyn_List ctx1 delegate sent (env w)
        = dyn_List ctx2 delegate sent (env w)) ->
     List InternalListOptions convert s range ctx1 options w
     = List InternalListOptions convert s range ctx2 options w).
Proof.
  intros Hscope Hcluster.
  assert (getClientResource s ctx1 = getClientResource s ctx2) as Hres.
  { unfold getClientResource. by rewrite Hcluster, Hscope. }
  split; [done|]. split; [|split].
  - intros delegate. unfold getClientResource. rewrite Hscope.
    destruct (ValidClusterFrom ctx1); [|done]. by intros [= <-].
  - intros Hclient. unfold Get. rewrite Hres.
    destruct (getClientResource s ctx2) as [delegate|err]; [|done].
    destruct getOptions as [opts|]; [|done].
    unfold bind, call_Get. by rewrite Hclient.
  - intros Hclient. unfold List. rewrite Hres.
    destruct (convert options) as [v1ListOptions|err]; [|done].
    destruct (getClientResource s ctx2) as [delegate|err]; [|done].
    unfold call_List. by rewrite Hclient.
Qed.

(** X4: Get returns an object exactly when the backing client returned
    that object and it lies in the label scope; an error of the backing
    client is returned as it is; either way Get makes one backing call and
    leaves the backing store as that call left it. *)
Theorem Get_returns_only_scoped_objects (s : Store) (ctx : Context)
    (name : string) (opts : GetOptions) (delegate : ResourceInterface)
    (w : World Env) :
  getClientResource s ctx = Ok delegate ->
  (∀ obj,
     (Get s ctx name (Some opts) w).1 = Returns (Ok obj)
     ↔ (dyn_Get ctx delegate name opts (subResources s) (env w)).1 = Ok obj
       ∧ matches (labelSelector s) obj = true)
  ∧ (∀ err,
       (dyn_Get ctx delegate name opts (subResources s) (env w)).1 = Err err ->
       (Get s ctx name (Some opts) w).1 = Returns (Err err))
  ∧ env (Get s ctx name (Some opts) w).2
    = (dyn_Get ctx delegate name opts (subResources s) (env w)).2
  ∧ calls (Get s ctx name (Some opts) w).2
    = calls w ++
      [EvGet delegate name opts (subResources s)
         (dyn_Get ctx delegate name opts (subResources s) (env w)).1].
Proof.
  intros Hres. rewrite (Get_unfold _ _ _ _ delegate) by done. cbv zeta.
  destruct (dyn_Get ctx delegate name opts (subResources s) (env w)) as [[o|e] e1];
    cbn [fst snd].
  - destruct (matches (labelSelector s) o) eqn:Hscope;
      cbn [fst snd env calls log]; (split; [|split; [|split]]); try done.
    + intros obj. split; [by intros [= <-]|by intros [[= <-] _]].
    + intros obj. split; [by intros [=]|].
      intros [[= <-] Hobj]. congruence.
  - cbn [fst snd env calls log]. (split; [|split; [|split]]); try done.
    + intros obj. split; [by intros [=]|by intros [[=] _]].
    + by intros err [= <-].
Qed.

(** X5: List and Watch hand back what the backing client answers, leave
    the backing store as that call left it, and forward the field selector
    and the resource version of the caller untouched: of the options only
    the label selector is rewritten. *)
Theorem List_and_Watch_forward_verbatim (s : Store)
    (range : list (string * string)) (ctx : Context)
    (options : InternalListOptions) (v1ListOptions : ListOptions)
    (delegate : ResourceInterface) (w : World Env) :
  convert options = Ok v1ListOptions ->
  getClientResource s ctx = Ok delegate ->
  ∃ sent : ListOptions,
    FieldSelector sent = FieldSelector v1ListOptions
    ∧ lo_ResourceVersion sent = lo_ResourceVersion v1ListOptions
    ∧ (List InternalListOptions convert s range ctx options w).1
      = Returns (dyn_List ctx delegate sent (env w)).1
    ∧ env (List InternalListOptions convert s range ctx options w).2
      = (dyn_List ctx delegate sent (env w)).2
    ∧ (Watch InternalListOptions convert s range ctx options w).1
      = Returns (dyn_Watch delegate (length (contexts (rt w))) sent (env w)).1
    ∧ env (Watch InternalListOptions convert s range ctx options w).2
      = (dyn_Watch delegate (length (contexts (rt w))) sent (env w)).2.
Proof.
  intros Hconv Hres.
  exists (set_LabelSelector (scopedSelector s range (LabelSelector v1ListOptions))
            v1ListOptions).
  split; [done|]. split; [done|].
  unfold List, Watch. rewrite Hconv, Hres.
  unfold bind, WithCancel, go, call_List, call_Watch. cbn.
  destruct (dyn_List _ _ _ _) as [res e]. destruct (dyn_Watch _ _ _ _) as [res' e'].
  done.
Qed.
(** *** The unit of Update, case by case *)

(** What one unit does after a read that returned [old]: the world it
    leaves when it stops before the write is the world right after the
    read. *)
Lemma doUpdate_after_read (s : Store) (ctx : Context) (name : string)
    (objInfo : UpdatedObjectInfo) (updateValidation : ValidateObjectUpdateFunc)
    (options : option UpdateOptions) (delegate : ResourceInterface)
    (old : Unstructured) (w : World Env) :
  getClientResource s ctx = Ok delegate ->
  (dyn_Get ctx delegate name (mkGetOptions "") (subResources s) (env w)).1 = Ok old ->
  doUpdate s ctx name objInfo updateValidation options delegate w
  = let w1 := log (EvGet delegate name (mkGetOptions "") (subResources s) (Ok old))
                (mkWorld
                   (dyn_Get ctx delegate name (mkGetOptions "") (subResources s)
                      (env w)).2
                   (calls w) (rt w)) in
    if matches (labelSelector s) old then
      match objInfo old with
      | Err err => (Returns (Err err), w1)
      | Ok obj =>
          match asUnstructured obj with
          | None => (Returns (Err (ErrNotUnstructured obj)), w1)
          | Some candidate =>
              let prepared := PrepareForUpdate (UpdateStrategy s) candidate old in
              match ValidateUpdate (UpdateStrategy s) prepared.1 prepared.2 with
              | [] =>
                  match updateValidation prepared.1 prepared.2 with
                  | Some err => (Returns (Err err), w1)
                  | None =>
                      match options with
                      | None => (Panics nil_dereference, w1)
                      | Some opts =>
                          call_Update ctx delegate prepared.1 opts (subResources s) w1
                      end
                  end
              | errs =>
                  (Returns (Err (NewInvalid
                                   (GVK_GroupKind (GroupVersionKindOf prepared.1))
                                   (GetName prepared.1) errs)), w1)
              end
          end
      end
    else (Returns (Err (NewNotFound (DefaultQualifiedResource s) name)), w1).
Proof.
  intros Hres Hread. unfold doUpdate, bind.
  rewrite (Get_unfold _ _ _ _ delegate) by done. cbv zeta. rewrite Hread.
  destruct (matches (labelSelector s) old); [|done].
  destruct (objInfo old) as [obj|err]; [|done].
  destruct (asUnstructured obj) as [candidate|]; [|done].
  destruct (ValidateUpdate _ _ _) as [|e errs]; [|done].
  rewrite bool_decide_eq_false_2 by (cbn; lia).
  destruct (updateValidation _ _) as [err|]; [done|].
  by destruct options.
Qed.

Lemma doUpdate_read_failed (s : Store) (ctx : Context) (name : string)
    (objInfo : UpdatedObjectInfo) (updateValidation : ValidateObjectUpdateFunc)
    (options : option UpdateOptions) (delegate : ResourceInterface)
    (err : error) (w : World Env) :
  getClientResource s ctx = Ok delegate ->
  (dyn_Get ctx delegate name (mkGetOptions "") (subResources s) (env w)).1 = Err err ->
  doUpdate s ctx name objInfo updateValidation options delegate w
  = (Returns (Err err),
     log (EvGet delegate name (mkGetOptions "") (subResources s) (Err err))
       (mkWorld
          (dyn_Get ctx delegate name (mkGetOptions "") (subResources s) (env w)).2
          (calls w) (rt w))).
Proof.
  intros Hres Hread. unfold doUpdate, bind.
  rewrite (Get_unfold _ _ _ _ delegate) by done. cbv zeta. by rewrite Hread.
Qed.

(** The events of one unit, with what its write carries. *)
Lemma doUpdate_writes_validated (s : Store) (ctx : Context) (name : string)
    (objInfo : UpdatedObjectInfo) (updateValidation : ValidateObjectUpdateFunc)
    (options : option UpdateOptions) (delegate : ResourceInterface)
    (w : World Env) :
  getClientResource s ctx = Ok delegate ->
  ∃ a,
    calls (doUpdate s ctx name objInfo updateValidation options delegate w).2
    = calls w ++ a
    ∧ writes_validated s objInfo updateValidation delegate name a
    ∧ rt (doUpdate s ctx name objInfo updateValidation options delegate w).2
      = rt w.
Proof.
  intros Hres.
  destruct (dyn_Get ctx delegate name (mkGetOptions "") (subResources s) (env w)).1
    as [old|err] eqn:Hread.
  2:{ rewrite (doUpdate_read_failed _ _ _ _ _ _ delegate err) by done.
      eexists [_]. split; [done|]. split; [|done].
      intros [|[|i]] ri obj opts subs res Hi; done. }
  rewrite (doUpdate_after_read _ _ _ _ _ _ delegate old) by done. cbv zeta.
  assert (∀ res : result Unstructured,
            writes_validated s objInfo updateValidation delegate name
              [EvGet delegate name (mkGetOptions "") (subResources s) res])
    as Hreadonly.
  { intros res [|[|i]] ri obj opts subs res' Hi; done. }
  destruct (matches (labelSelector s) old) eqn:Hscope;
    [|eexists [_]; by split].
  destruct (objInfo old) as [obj|err] eqn:Hinfo; [|eexists [_]; by split].
  destruct (asUnstructured obj) as [candidate|] eqn:Hcast;
    [|eexists [_]; by split].
  destruct (ValidateUpdate _ _ _) as [|e errs] eqn:Hvalid;
    [|eexists [_]; by split].
  destruct (updateValidation _ _) as [err|] eqn:Hhook; [eexists [_]; by split|].
  destruct options as [opts|]; [|eexists [_]; by split].
  unfold call_Update. cbn [env calls rt log].
  destruct (dyn_Update _ _ _ _ _ _) as [res e2]. cbn [snd calls rt log].
  eexists [_; _]. rewrite <- app_assoc. split; [done|]. split; [|done].
  intros [|[|i]] ri obj' opts' subs res' Hi; [done| |done].
  cbn in Hi. simplify_eq. exists 0%nat, old, candidate.
  destruct obj; cbn in Hcast; simplify_eq. done.
Qed.

Lemma writes_validated_snoc (s : Store) (objInfo : UpdatedObjectInfo)
    (updateValidation : ValidateObjectUpdateFunc) (delegate : ResourceInterface)
    (name : string) (evs a : list Event) (delay : Z) :
  writes_validated s objInfo updateValidation delegate name evs ->
  writes_validated s objInfo updateValidation delegate name a ->
  writes_validated s objInfo updateValidation delegate name
    (evs ++ EvSleep delay :: a).
Proof.
  intros Hevs Ha i ri obj opts subs res Hi.
  apply lookup_app_Some in Hi as [Hi|[Hlen Hi]].
  - destruct (Hevs _ _ _ _ _ _ Hi) as (j & old & c & -> & -> & -> & Hj & Hrest).
    exists j, old, c. repeat (split; [done|]).
    split; [by apply lookup_app_l_Some|done].
  - destruct (i - length evs)%nat as [|i'] eqn:Ei; [done|]. cbn in Hi.
    destruct (Ha _ _ _ _ _ _ Hi) as (j & old & c & -> & -> & -> & Hj & Hrest).
    exists (length evs + Datatypes.S j)%nat, old, c.
    split; [lia|]. repeat (split; [done|]). split; [|done].
    rewrite lookup_app_r by lia.
    replace (length evs + Datatypes.S j - length evs)%nat with (Datatypes.S j)
      by lia.
    done.
Qed.

(** Whatever the verb, [Update] returns what the unit of some attempt
    returned and leaves the world that attempt left. *)
Lemma Update_stops_at (s : Store) (ctx : Context) (name : string)
    (objInfo : UpdatedObjectInfo) (createValidation : ValidateObjectFunc)
    (updateValidation : ValidateObjectUpdateFunc) (forceAllowCreate : bool)
    (options : option UpdateOptions) (delegate : ResourceInterface)
    (w : World Env) :
  getClientResource s ctx = Ok delegate ->
  ∃ k,
    Update computed_delay s ctx name objInfo createValidation updateValidation
      forceAllowCreate options w
    = (update_return
         (doUpdate s ctx name objInfo updateValidation options delegate
            (attempt_world computed_delay (patchConflictRetryBackoff s)
               (doUpdate s ctx name objInfo updateValidation options delegate)
               k w)).1,
       (doUpdate s ctx name objInfo updateValidation options delegate
          (attempt_world computed_delay (patchConflictRetryBackoff s)
             (doUpdate s ctx name objInfo updateValidation options delegate)
             k w)).2).
Proof.
  intros Hres. destruct (RequestInfoFrom ctx) as [requestInfo|] eqn:Hinfo.
  - destruct (decide (Verb requestInfo = "patch")) as [Hverb|Hverb].
    + destruct (Update_patch_run computed_delay s ctx name objInfo
                  createValidation updateValidation forceAllowCreate options
                  delegate requestInfo w Hres Hinfo Hverb)
        as (k & _ & _ & _ & Hrun).
      by exists k.
    + exists 0%nat. apply Update_full_run; [done|].
      intros requestInfo' Hinfo'. rewrite Hinfo in Hinfo'. by simplify_eq.
  - exists 0%nat. apply Update_full_run; [done|].
    intros requestInfo' Hinfo'. rewrite Hinfo in Hinfo'. done.
Qed.

(** The log and the runtime up to the end of attempt [k]. *)
Lemma attempts_write_validated (s : Store) (ctx : Context) (name : string)
    (objInfo : UpdatedObjectInfo) (updateValidation : ValidateObjectUpdateFunc)
    (options : option UpdateOptions) (delegate : ResourceInterface)
    (k : nat) (w : World Env) :
  getClientResource s ctx = Ok delegate ->
  ∃ evs,
    calls (doUpdate s ctx name objInfo updateValidation options delegate
             (attempt_world computed_delay (patchConflictRetryBackoff s)
                (doUpdate s ctx name objInfo updateValidation options delegate)
                k w)).2
    = calls w ++ evs
    ∧ writes_validated s objInfo updateValidation delegate name evs
    ∧ rt (doUpdate s ctx name objInfo updateValidation options delegate
            (attempt_world computed_delay (patchConflictRetryBackoff s)
               (doUpdate s ctx name objInfo updateValidation options delegate)
               k w)).2
      = rt w.
Proof.
  intros Hres. induction k as [|k (evs & Hevs & Hvalid & Hrt)].
  - by apply doUpdate_writes_validated.
  - destruct (doUpdate_writes_validated s ctx name objInfo updateValidation
                options delegate
                (attempt_world computed_delay (patchConflictRetryBackoff s)
                   (doUpdate s ctx name objInfo updateValidation options delegate)
                   (Datatypes.S k) w) Hres) as (a & Ha & Hva & Hrta).
    exists (evs ++ EvSleep (computed_delay (patchConflictRetryBackoff s) k) :: a).
    split; [|split].
    + rewrite Ha. cbn [attempt_world log calls]. rewrite Hevs.
      by rewrite <- !app_assoc.
    + by apply writes_validated_snoc.
    + rewrite Hrta. cbn [attempt_world log rt]. done.
Qed.

(** X6: under any verb, every write Update sends to the backing client
    carries the candidate of the read right before it: the object the
    transform of the caller made of the object just read, which lies in the
    label scope, as PrepareForUpdate left it and after the validation of the
    strategy and the validation of the caller both accepted it. *)
Theorem Update_writes_only_validated_candidates (s : Store) (ctx : Context)
    (name : string) (objInfo : UpdatedObjectInfo)
    (createValidation : ValidateObjectFunc)
    (updateValidation : ValidateObjectUpdateFunc) (forceAllowCreate : bool)
    (options : option UpdateOptions) (delegate : ResourceInterface)
    (w : World Env) :
  getClientResource s ctx = Ok delegate ->
  ∃ evs,
    calls (Update computed_delay s ctx name objInfo createValidation
             updateValidation forceAllowCreate options w).2
    = calls w ++ evs
    ∧ writes_validated s objInfo updateValidation delegate name evs.
Proof.
  intros Hres.
  destruct (Update_stops_at s ctx name objInfo createValidation updateValidation
              forceAllowCreate options delegate w Hres) as [k ->].
  destruct (attempts_write_validated s ctx name objInfo updateValidation options
              delegate k w Hres) as (evs & Hevs & Hvalid & _).
  exists evs. by split.
Qed.

(** X7: Get, List and Update, under any verb and with any outcome, leave
    the runtime as it was: they derive no context and start no goroutine. *)
Theorem only_Watch_touches_the_runtime (s : Store) (ctx : Context)
    (name : string) (getOptions : option GetOptions)
    (range : list (string * string)) (options : InternalListOptions)
    (objInfo : UpdatedObjectInfo) (createValidation : ValidateObjectFunc)
    (updateValidation : ValidateObjectUpdateFunc) (forceAllowCreate : bool)
    (updateOptions : option UpdateOptions) (w : World Env) :
  rt (Get s ctx name getOptions w).2 = rt w
  ∧ rt (List InternalListOptions convert s range ctx options w).2 = rt w
  ∧ rt (Update computed_delay s ctx name objInfo createValidation
          updateValidation forceAllowCreate updateOptions w).2 = rt w.
Proof.
  split; [|split].
  - unfold Get. destruct (getClientResource s ctx) as [delegate|err]; [|done].
    destruct getOptions as [opts|]; [|done].
    unfold bind, call_Get. destruct (dyn_Get _ _ _ _ _ _) as [[obj|err] e]; [|done].
    cbn. by destruct (matches _ _).
  - unfold List. destruct (convert options) as [v1|err]; [|done].
    destruct (getClientResource s ctx) as [delegate|err]; [|done].
    unfold call_List. by destruct (dyn_List _ _ _ _).
  - destruct (getClientResource s ctx) as [delegate|err] eqn:Hres.
    2:{ unfold Update. by rewrite Hres. }
    destruct (Update_stops_at s ctx name objInfo createValidation
                updateValidation forceAllowCreate updateOptions delegate w Hres)
      as [k ->].
    by destruct (attempts_write_validated s ctx name objInfo updateValidation
                   updateOptions delegate k w Hres) as (evs & _ & _ & Hrt).
Qed.
End FurtherRegistryProperties.

Section UpdateRejections.
Context {Env : Type} `{DynamicClient Env}.
Variable computed_delay : Backoff -> nat -> Z.

(** X8: without the patch verb, after a read that returned an object,
    Update rejects without writing: with not found when the object lies
    outside the label scope; with the error of the transform of the caller;
    with a type mismatch when the transform did not yield an unstructured
    object; with an invalid error that names the kind and the name of the
    prepared candidate and lists the field errors when the validation of the
    strategy found any; with the error of the validation of the caller.  In
    each case created is false and the read is the only backing call. *)
Theorem Update_full_rejects_without_writing (s : Store) (ctx : Context)
    (name : string) (objInfo : UpdatedObjectInfo)
    (createValidation : ValidateObjectFunc)
    (updateValidation : ValidateObjectUpdateFunc) (forceAllowCreate : bool)
    (options : option UpdateOptions) (delegate : ResourceInterface)
    (old : Unstructured) (w : World Env) :
  getClientResource s ctx = Ok delegate ->
  (∀ requestInfo, RequestInfoFrom ctx = Some requestInfo ->
                  Verb requestInfo ≠ "patch") ->
  (dyn_Get ctx delegate name (mkGetOptions "") (subResources s) (env w)).1 = Ok old ->
  let after_read :=
    log (EvGet delegate name (mkGetOptions "") (subResources s) (Ok old))
      (mkWorld
         (dyn_Get ctx delegate name (mkGetOptions "") (subResources s) (env w)).2
         (calls w) (rt w)) in
  let rejected (err : error) :=
    Update computed_delay s ctx name objInfo createValidation updateValidation
      forceAllowCreate options w
    = (Returns (mkUpdateReturn None false (Some err)), after_read) in
  (matches (labelSelector s) old = false ->
   rejected (NewNotFound (DefaultQualifiedResource s) name))
  ∧ (matches (labelSelector s) old = true ->
     (∀ err, objInfo old = Err err -> rejected err)
     ∧ (∀ obj, objInfo old = Ok obj -> asUnstructured obj = None ->
               rejected (ErrNotUnstructured obj))
     ∧ ∀ candidate,
         objInfo old = Ok (ObjUnstructured candidate) ->
         let prepared := PrepareForUpdate (UpdateStrategy s) candidate old in
         (ValidateUpdate (UpdateStrategy s) prepared.1 prepared.2 ≠ [] ->
          rejected (NewInvalid (GVK_GroupKind (GroupVersionKindOf prepared.1))
                      (GetName prepared.1)
                      (ValidateUpdate (UpdateStrategy s) prepared.1 prepared.2)))
         ∧ (ValidateUpdate (UpdateStrategy s) prepared.1 prepared.2 = [] ->
            ∀ err, updateValidation prepared.1 prepared.2 = Some err ->
                   rejected err)).
Proof.
  intros Hres Hverb Hread after_read rejected. subst rejected. cbv beta.
  rewrite (Update_full_run computed_delay _ _ _ _ _ _ _ _ delegate) by done.
  rewrite (doUpdate_after_read _ _ _ _ _ _ delegate old) by done.
  cbv zeta. fold after_read. split.
  - by intros ->.
  - intros ->. split; [by intros err ->|]. split.
    + intros obj -> Hcast. by rewrite Hcast.
    + intros candidate ->. cbn [asUnstructured]. split.
      * intros Hinvalid. by destruct (ValidateUpdate _ _ _).
      * intros -> err ->. done.
Qed.
End UpdateRejections.

(** ** Further properties of the label scope filter *)

(** X9: for a scope none of whose required values is empty, matches holds
    exactly when the scope is included in the labels of the object: every
    required key is present with the required value. *)
Theorem matches_iff_scope_included (scope : gmap string string)
    (obj : Unstructured) :
  (∀ k v, scope !! k = Some v -> v ≠ "") ->
  matches (Some scope) obj = true ↔ scope ⊆ GetLabels obj.
Proof.
  intros Hvalues. rewrite matches_true, map_subseteq_spec. cbn [default].
  split.
  - intros Hall k v Hkv. specialize (Hall k v Hkv). unfold go_index in Hall.
    destruct (GetLabels obj !! k) as [v'|]; cbn in Hall; [by subst|].
    by destruct (Hvalues k v Hkv).
  - intros Hsub k v Hkv. unfold go_index. by rewrite (Hsub k v Hkv).
Qed.

(** X10: the result of matches does not depend on the order in which the
    range over the label scope yields its entries, although the loop stops
    at the first entry that differs. *)
Theorem matches_order_irrelevant (labelSelector : option (gmap string string))
    (range1 range2 : list (string * string)) (obj : Unstructured) :
  range_of labelSelector range1 ->
  range_of labelSelector range2 ->
  matches_in labelSelector range1 obj = matches_in labelSelector range2 obj.
Proof. intros H1 H2. by rewrite !matches_in_range. Qed.

Lemma joined_nonempty (kv : string * string) (rest : list (string * string)) :
  joined (kv :: rest) ≠ "".
Proof.
  unfold joined. destruct rest as [|kv' rest']; cbn [map String.concat].
  - apply clause_nonempty.
  - intros [E _]%append_eq_empty. by apply clause_nonempty in E.
Qed.

(** X11: List and Watch send an empty label selector only when the caller
    gave none and the label scope is empty. *)
Theorem scopedSelector_empty_iff (s : Store) (range : list (string * string))
    (callerSelector : string) :
  range_of (labelSelector s) range ->
  scopedSelector s range callerSelector = ""
  ↔ callerSelector = "" ∧ size (default ∅ (labelSelector s)) = 0%nat.
Proof.
  intros Hrange. unfold scopedSelector. case_bool_decide as Hcaller.
  - apply length_zero_empty in Hcaller. split.
    + intros Hexpr. split; [done|].
      destruct (decide (size (default ∅ (labelSelector s)) = 0%nat)) as [|Hne];
        [done|].
      rewrite toExpression_joined in Hexpr by done.
      destruct range as [|kv rest]; [|by apply joined_nonempty in Hexpr].
      unfold range_of in Hrange. symmetry in Hrange.
      apply Permutation_nil_r in Hrange.
      apply map_to_list_empty_iff in Hrange. rewrite Hrange in Hne.
      by rewrite map_size_empty in Hne.
    + intros [_ Hsize]. by apply toExpression_empty_scope.
  - split.
    + intros [E _]%append_eq_empty. apply length_zero_empty in E. done.
    + intros [E _]. apply length_zero_empty in E. done.
Qed.

(** ** Further properties of the watch lifecycle *)

Lemma wf_runtime_step (r r' : Runtime) :
  rt_step r r' -> wf_runtime r -> wf_runtime r'.
Proof.
  intros Hstep Hwf.
  destruct Hstep as [ch r|c r|stop ctx r|j r r' Hmove];
    [| | |destruct Hmove as [g r Hg Hsel Hstop|g r Hg Hsel Hend]];
    unfold wf_runtime;
    cbn [contexts goroutines watch_setup waiter_exits cancelFn].
  - done.
  - done.
  - rewrite length_app. cbn [length].
    intros i g [Hg|[_ Hg]]%lookup_app_Some.
    + apply Hwf in Hg. lia.
    + destruct (i - length (goroutines r))%nat; [|done].
      cbn in Hg. simplify_eq. cbn. lia.
  - rewrite length_alter. intros i g' Hg'. rewrite list_lookup_alter in Hg'.
    case_decide; [|by eapply Hwf]. subst i. rewrite Hg in Hg'.
    cbn in Hg'. simplify_eq. cbn. by eapply Hwf.
  - intros i g' Hg'. rewrite list_lookup_alter in Hg'.
    case_decide; [|by eapply Hwf]. subst i. rewrite Hg in Hg'.
    cbn in Hg'. simplify_eq. cbn. by eapply Hwf.
Qed.

Lemma watches_invariant_step (r r' : Runtime) :
  rt_step r r' -> watches_invariant r -> watches_invariant r'.
Proof.
  intros Hstep Hinv.
  assert (∀ c, derived_done r c = true -> derived_done r' c = true) as Hmono
    by (intros c; by apply derived_done_step).
  destruct Hstep as [ch r|c r|stop ctx r|j r r' Hmove];
    [| | |destruct Hmove as [g0 r Hg0 Hsel Hstop|g0 r Hg0 Hsel Hend]];
    unfold watches_invariant;
    cbn [contexts goroutines watch_setup waiter_exits cancelFn].
  - intros i g Hg. destruct (Hinv i g Hg) as [Hctx Hexited]. split; [done|].
    intros Hstate. by apply Hmono, Hexited.
  - intros i g Hg. destruct (Hinv i g Hg) as [Hctx Hexited]. split; [done|].
    intros Hstate. by apply Hmono, Hexited.
  - intros i g [Hg|[_ Hg]]%lookup_app_Some.
    + destruct (Hinv i g Hg) as [[cancelled Hctx] Hexited]. split.
      * exists cancelled. by apply lookup_app_l_Some.
      * intros Hstate. by apply Hmono, Hexited.
    + destruct (i - length (goroutines r))%nat; [|done].
      cbn in Hg. simplify_eq. cbn [wt_cancels wt_ctx wt_state]. split; [|done].
      exists false. by rewrite lookup_app_r, Nat.sub_diag.
  - destruct (Hinv j g0 Hg0) as [[cancelled0 Hctx0] _].
    intros i g Hg. rewrite list_lookup_alter in Hg.
    assert (∀ g1, goroutines r !! i = Some g1 ->
              ∃ cancelled,
                alter cancel_context (wt_cancels g0) (contexts r) !! wt_cancels g1
                = Some (mkDerivedContext (wt_ctx g1) cancelled)) as Hkept.
    { intros g1 Hg1. destruct (Hinv i g1 Hg1) as [[cancelled Hctx] _].
      rewrite list_lookup_alter.
      destruct (decide (wt_cancels g0 = wt_cancels g1)) as [Hsame|Hne].
      - exists true. rewrite Hsame, Hctx. done.
      - by exists cancelled. }
    case_decide as Hij.
    + subst i. rewrite Hg0 in Hg. cbn in Hg. simplify_eq.
      cbn [exit_waiter wt_cancels wt_ctx wt_state]. split; [by apply Hkept|].
      intros _. apply derived_done_lookup.
      exists (mkDerivedContext (wt_ctx g0) true).
      cbn [contexts cancelFn waiter_exits ended].
      rewrite list_lookup_alter_eq, Hctx0. split; [done|by left].
    + split; [by apply Hkept|].
      intros Hstate. apply Hmono. by apply (Hinv i g Hg).
  - intros i g Hg. rewrite list_lookup_alter in Hg. case_decide as Hij.
    + subst i. rewrite Hg0 in Hg. cbn in Hg. simplify_eq.
      cbn [exit_waiter wt_cancels wt_ctx wt_state].
      destruct (Hinv j g0 Hg0) as [[cancelled Hctx] _].
      split; [by exists cancelled|].
      intros _. apply derived_done_lookup.
      exists (mkDerivedContext (wt_ctx g0) cancelled). split; [done|by right].
    + destruct (Hinv i g Hg) as [Hctx Hexited]. split; [done|].
      intros Hstate. by apply Hmono, Hexited.
Qed.

Lemma invariants_reachable (r0 r : Runtime) :
  reachable r0 r ->
  watches_invariant r0 ∧ wf_runtime r0 ->
  watches_invariant r ∧ wf_runtime r.
Proof.
  induction 1 as [|r0 r1 r Hstep _ IH]; [done|].
  intros [Hinv Hwf]. apply IH.
  split; [by eapply watches_invariant_step | by eapply wf_runtime_step].
Qed.

Lemma initial_runtime_invariants :
  watches_invariant initial_runtime ∧ wf_runtime initial_runtime.
Proof. split; intros i g Hg; done. Qed.

(** A goroutine that has ended stays ended. *)
Lemma exited_stays_exited (r r' : Runtime) (i : nat) :
  reachable r r' ->
  (∃ g, goroutines r !! i = Some g ∧ wt_state g = Exited) ->
  ∃ g, goroutines r' !! i = Some g ∧ wt_state g = Exited.
Proof.
  induction 1 as [|r r1 r' Hstep _ IH]; [done|].
  intros (g & Hg & Hstate). apply IH. clear IH.
  destruct Hstep as [ch r|c r|stop ctx r|j r r1 Hmove];
    [| | |destruct Hmove as [g0 r Hg0 Hsel Hstop|g0 r Hg0 Hsel Hend]];
    cbn [goroutines watch_setup waiter_exits cancelFn].
  - eauto.
  - eauto.
  - exists g. split; [by apply lookup_app_l_Some|done].
  - rewrite list_lookup_alter. case_decide as Hij.
    + subst j. rewrite Hg in Hg0. simplify_eq. congruence.
    + eauto.
  - rewrite list_lookup_alter. case_decide as Hij.
    + subst j. rewrite Hg in Hg0. simplify_eq. congruence.
    + eauto.
Qed.

Section WatchSystem.
Context {Env : Type} `{DynamicClient Env}.
Variable InternalListOptions : Type.
Variable convert : InternalListOptions -> result ListOptions.

(** What [Watch] does to the runtime, whatever it returns: nothing, or
    the set-up of one watch. *)
Lemma Watch_runtime (s : Store) (range : list (string * string)) (ctx : Context)
    (options : InternalListOptions) (w : World Env) :
  rt (Watch InternalListOptions convert s range ctx options w).2 = rt w
  ∨ rt (Watch InternalListOptions convert s range ctx options w).2
    = watch_setup (stopWatchesCh s) (ctx_id ctx) (rt w).
Proof.
  unfold Watch. destruct (convert options) as [v1|err]; [|by left].
  destruct (getClientResource s ctx) as [delegate|err]; [|by left].
  right. unfold bind, WithCancel, go, call_Watch. cbn.
  by destruct (dyn_Watch _ _ _ _).
Qed.

(** X12: in every runtime that Watch calls, closings of channels, ends of
    contexts and moves of goroutines produce from the initial one, and
    after one more Watch call with any outcome, every goroutine of a watch
    cancels a context that exists; that context is done once the context
    the goroutine waits for has ended; and once the stop channel the
    goroutine waits on is closed, that context is done or the goroutine is
    ready to move. *)
Theorem stop_signal_reaches_every_watch (s : Store)
    (range : list (string * string)) (ctx : Context)
    (options : InternalListOptions) (w : World Env) (r : Runtime) :
  reachable initial_runtime (rt w) ->
  reachable (rt (Watch InternalListOptions convert s range ctx options w).2) r ->
  reachable initial_runtime r
  ∧ ∀ i g,
      goroutines r !! i = Some g ->
      (wt_cancels g < length (contexts r))%nat
      ∧ (wt_ctx g ∈ ended r -> derived_done r (wt_cancels g) = true)
      ∧ (wt_stop g ∈ closed r ->
         derived_done r (wt_cancels g) = true ∨ ∃ r', waiter_step i r r').
Proof.
  intros Hbefore Hafter.
  assert (reachable initial_runtime r) as Hreach.
  { unfold reachable in *. etrans; [done|]. etrans; [|done].
    destruct (Watch_runtime s range ctx options w) as [->| ->]; [done|].
    apply rtc_once, step_watch. }
  split; [done|].
  destruct (invariants_reachable _ _ Hreach initial_runtime_invariants)
    as [Hinv Hwf].
  intros i g Hg. destruct (Hinv i g Hg) as [[cancelled Hctx] Hexited].
  split; [by eapply Hwf|]. split.
  - intros Hended. apply derived_done_lookup. eexists. split; [done|by right].
  - intros Hclosed. destruct (wt_state g) eqn:Hstate; [right|left; by apply Hexited].
    eexists. by eapply (waiter_stop i g r).
Qed.
End WatchSystem.

(** X13: the goroutine of a watch moves at most once: after it has taken a
    case of its select it has ended, and in no later runtime can it move
    again, so it cancels at most once and does not outlive its move. *)
Theorem waiter_moves_once (i : nat) (r r1 r2 : Runtime) :
  waiter_step i r r1 ->
  reachable r1 r2 ->
  ¬ ∃ r3, waiter_step i r2 r3.
Proof.
  intros Hmove Hreach [r3 Hagain].
  assert (∃ g, goroutines r1 !! i = Some g ∧ wt_state g = Exited) as Hexited.
  { destruct Hmove as [g r Hg _ _|g r Hg _ _];
      cbn [goroutines waiter_exits cancelFn];
      rewrite list_lookup_alter_eq, Hg; by eexists. }
  destruct (exited_stays_exited _ _ _ Hreach Hexited) as (g & Hg & Hstate).
  destruct Hagain as [g' r2 Hg' Hsel _|g' r2 Hg' Hsel _];
    rewrite Hg in Hg'; simplify_eq; congruence.
Qed.

(** * Deep copies *)

Import Tenancy.

Section SliceProperties.
Context {A : Type}.
Implicit Types (arrays : gmap nat (list A)) (sl src dst : Slice).

Lemma slice_elems_length arrays sl :
  slice_ok arrays sl -> length (slice_elems arrays sl) = sl_len sl.
Proof.
  intros (arr & Harr & Hwindow). unfold slice_elems. rewrite Harr. cbn.
  rewrite length_take, length_drop. lia.
Qed.

(** Reading a slice does not depend on arrays other than its own. *)
Lemma slice_elems_insert_ne arrays sl l arr :
  l ≠ sl_array sl ->
  slice_elems (<[l := arr]> arrays) sl = slice_elems arrays sl.
Proof. intros Hne. unfold slice_elems. by rewrite lookup_insert_ne. Qed.

Lemma slice_elems_alter_ne arrays sl l (f : list A -> list A) :
  l ≠ sl_array sl ->
  slice_elems (alter f l arrays) sl = slice_elems arrays sl.
Proof. intros Hne. unfold slice_elems. by rewrite lookup_alter_ne. Qed.

Lemma slice_ok_allocated arrays sl : slice_ok arrays sl -> sl_array sl ∈ dom arrays.
Proof. intros (arr & Harr & _). apply elem_of_dom. by eexists. Qed.

(** The copy of a slice field that is not nil: a fresh array that holds
    the elements of the field, and a header over all of it. *)
Lemma deepcopy_slice_Some (zero : A) arrays src :
  slice_ok arrays src ->
  deepcopy_slice zero (Some src) arrays
  = (Some (mkSlice (fresh (dom arrays)) 0 (sl_len src) (sl_len src)),
     <[fresh (dom arrays) := slice_elems arrays src]> arrays).
Proof.
  intros Hok. unfold deepcopy_slice, make_slice, copy_slice. cbn [fst snd].
  cbn [sl_array sl_offset sl_len]. f_equal.
  assert (fresh (dom arrays) ≠ sl_array src) as Hfresh.
  { intros E. apply (is_fresh (dom arrays)). rewrite E.
    by apply slice_ok_allocated. }
  rewrite alter_insert_eq. f_equal.
  rewrite slice_elems_insert_ne by done.
  rewrite Nat.min_id. cbn [take app]. rewrite Nat.add_0_l.
  rewrite drop_ge by (by rewrite length_replicate).
  rewrite app_nil_r. apply take_ge. by rewrite slice_elems_length.
Qed.
End SliceProperties.

Lemma fold_alter_insert (l : nat) (range : list (string * string))
    (acc : gmap string string) (maps : gmap nat (gmap string string)) :
  fold_left (fun maps kv => alter (fun m => <[kv.1 := kv.2]> m) l maps) range
    (<[l := acc]> maps)
  = <[l := fold_left (fun m kv => <[kv.1 := kv.2]> m) range acc]> maps.
Proof.
  revert acc. induction range as [|kv range IH]; intros acc; [done|].
  cbn [fold_left]. by rewrite alter_insert_eq, IH.
Qed.

Lemma fold_insert_list_to_map (range : list (string * string)) :
  fold_left (fun (m : gmap string string) kv => <[kv.1 := kv.2]> m) range ∅
  = list_to_map (reverse range).
Proof.
  induction range as [|kv range IH] using rev_ind; [done|].
  rewrite fold_left_app, reverse_snoc. cbn. by rewrite IH.
Qed.

(** The copy of the map field: a fresh table with the entries of the map
    of [in], whatever the order of the visit. *)
Lemma deepcopy_labels_Some (range : list (string * string)) (src : nat)
    (m : gmap string string) (maps : gmap nat (gmap string string)) :
  range ≡ₚ map_to_list m ->
  deepcopy_labels range (Some src) maps
  = (Some (fresh (dom maps)), <[fresh (dom maps) := m]> maps).
Proof.
  intros Hrange. unfold deepcopy_labels. f_equal.
  rewrite fold_alter_insert, fold_insert_list_to_map. f_equal.
  etrans; [|apply list_to_map_to_list].
  apply list_to_map_proper.
  - rewrite reverse_Permutation, Hrange. apply NoDup_fst_map_to_list.
  - by rewrite reverse_Permutation.
Qed.

Section FieldCopies.
Context {A : Type}.
Implicit Types (arrays : gmap nat (list A)) (sl : Slice) (field : option Slice).

Lemma slice_ok_weaken arrays arrays' sl :
  arrays ⊆ arrays' -> slice_ok arrays sl -> slice_ok arrays' sl.
Proof.
  intros Hsub (arr & Harr & Hwindow). exists arr. split; [|done].
  by eapply lookup_weaken.
Qed.

Lemma read_slice_weaken arrays arrays' field :
  arrays ⊆ arrays' ->
  (∀ sl, field = Some sl -> slice_ok arrays sl) ->
  read_slice arrays' field = read_slice arrays field.
Proof.
  intros Hsub Hok. destruct field as [sl|]; [|done]. cbn. f_equal.
  destruct (Hok sl eq_refl) as (arr & Harr & _). unfold slice_elems.
  by rewrite Harr, (lookup_weaken _ _ _ _ Harr Hsub).
Qed.

(** The copy of one slice field: it reads as the field did, keeps every
    array there was, and when it is not nil it is a header over the whole
    of an array that was not there before. *)
Lemma deepcopy_slice_field (zero : A) arrays field :
  (∀ sl, field = Some sl -> slice_ok arrays sl) ->
  read_slice (deepcopy_slice zero field arrays).2
    (deepcopy_slice zero field arrays).1
  = read_slice arrays field
  ∧ arrays ⊆ (deepcopy_slice zero field arrays).2
  ∧ ∀ sl, (deepcopy_slice zero field arrays).1 = Some sl ->
          (sl_array sl ∉ dom arrays)
          ∧ sl_offset sl = 0%nat ∧ sl_cap sl = sl_len sl
          ∧ slice_ok (deepcopy_slice zero field arrays).2 sl.
Proof.
  intros Hok. destruct field as [src|]; [|done].
  rewrite deepcopy_slice_Some by by apply Hok. cbn [fst snd].
  pose proof (is_fresh (dom arrays)) as Hfresh.
  split; [|split].
  - cbn. f_equal. unfold slice_elems at 1. cbn [sl_array sl_offset sl_len].
    rewrite lookup_insert_eq. cbn. rewrite drop_0. apply take_ge.
    by rewrite slice_elems_length by by apply Hok.
  - apply insert_subseteq. by apply not_elem_of_dom.
  - intros sl [= <-]. cbn [sl_array sl_offset sl_len sl_cap].
    repeat split; try done.
    eexists. rewrite lookup_insert_eq. split; [done|].
    cbn. by rewrite slice_elems_length by by apply Hok.
Qed.
End FieldCopies.

Lemma read_labels_weaken (maps maps' : gmap nat (gmap string string))
    (field : option nat) :
  maps ⊆ maps' ->
  (∀ l, field = Some l -> is_Some (maps !! l)) ->
  read_labels maps' field = read_labels maps field.
Proof.
  intros Hsub Hok. destruct field as [l|]; [|done]. cbn.
  destruct (Hok l eq_refl) as [m Hm].
  by rewrite Hm, (lookup_weaken _ _ _ _ Hm Hsub).
Qed.

(** The copy of the map field: it reads as the field did, keeps every
    table there was, and when it is not nil it is a table that was not there
    before. *)
Lemma deepcopy_labels_field (range : list (string * string))
    (maps : gmap nat (gmap string string)) (field : option nat) :
  (∀ l, field = Some l -> is_Some (maps !! l)) ->
  (∀ l m, field = Some l -> maps !! l = Some m -> range ≡ₚ map_to_list m) ->
  read_labels (deepcopy_labels range field maps).2
    (deepcopy_labels range field maps).1
  = read_labels maps field
  ∧ maps ⊆ (deepcopy_labels range field maps).2
  ∧ ∀ l, (deepcopy_labels range field maps).1 = Some l ->
         (l ∉ dom maps) ∧ is_Some ((deepcopy_labels range field maps).2 !! l).
Proof.
  intros Hok Hrange. destruct field as [src|]; [|done].
  destruct (Hok src eq_refl) as [m Hm].
  rewrite (deepcopy_labels_Some range src m) by by eapply Hrange.
  cbn [fst snd]. pose proof (is_fresh (dom maps)) as Hfresh.
  split; [|split].
  - cbn. by rewrite lookup_insert_eq, Hm.
  - apply insert_subseteq. by apply not_elem_of_dom.
  - intros l [= <-]. split; [done|]. by rewrite lookup_insert_eq.
Qed.

Section DeepCopyProperties.
Variables Initializer TypeName Other : Type.
Variable zeroInitializer : Initializer.
Variable zeroTypeName : TypeName.

Local Abbreviation TypeSpec := (ClusterWorkspaceTypeSpec Other).
Local Abbreviation DeepCopyInto :=
  (ClusterWorkspaceTypeSpec_DeepCopyInto Initializer TypeName Other
     zeroInitializer zeroTypeName).
Local Abbreviation DeepCopy :=
  (ClusterWorkspaceTypeSpec_DeepCopy Initializer TypeName Other
     zeroInitializer zeroTypeName).

(** The heap a copy leaves holds every array and table there was. *)
Lemma DeepCopyInto_keeps_heap (range : list (string * string)) (v : TypeSpec)
    (h : Heap Initializer TypeName) :
  spec_ok Initializer TypeName Other h v ->
  (∀ l m, AdditionalWorkspaceLabels Other v = Some l ->
          labelMaps _ _ h !! l = Some m -> range ≡ₚ map_to_list m) ->
  initializers _ _ h ⊆ initializers _ _ (DeepCopyInto range v h).2
  ∧ labelMaps _ _ h ⊆ labelMaps _ _ (DeepCopyInto range v h).2
  ∧ typeNames _ _ h ⊆ typeNames _ _ (DeepCopyInto range v h).2.
Proof.
  intros (Hi & Hl & Hc & Hp) Hrange.
  unfold ClusterWorkspaceTypeSpec_DeepCopyInto. cbn [snd initializers labelMaps typeNames].
  destruct (deepcopy_slice_field zeroInitializer _ _ Hi) as (_ & Hsubi & _).
  destruct (deepcopy_labels_field range _ _ Hl Hrange) as (_ & Hsubl & _).
  destruct (deepcopy_slice_field zeroTypeName _ _ Hc) as (_ & Hsubc & _).
  assert (∀ sl, AllowedParentWorkspaceTypes Other v = Some sl ->
                slice_ok (deepcopy_slice zeroTypeName
                            (AllowedChildWorkspaceTypes Other v)
                            (typeNames _ _ h)).2 sl) as Hp'
    by (intros sl Hsl; eapply slice_ok_weaken; [done|by apply Hp]).
  destruct (deepcopy_slice_field zeroTypeName _ _ Hp') as (_ & Hsubp & _).
  split; [done|]. split; [done|]. by etrans.
Qed.

(** X14: DeepCopy of a nil receiver is nil and allocates nothing; DeepCopy
    of a struct yields a struct that reads, field by field, what the
    original read (a nil slice or map stays nil, an empty one stays empty),
    whatever the order in which the range over the label map yields its
    entries; and the original reads after the copy what it read before. *)
Theorem DeepCopy_reads_the_same (range : list (string * string))
    (in_ : option TypeSpec) (h : Heap Initializer TypeName) :
  (∀ v, in_ = Some v ->
        spec_ok Initializer TypeName Other h v
        ∧ ∀ l m, AdditionalWorkspaceLabels Other v = Some l ->
                 labelMaps _ _ h !! l = Some m -> range ≡ₚ map_to_list m) ->
  (in_ = None -> DeepCopy range in_ h = (None, h))
  ∧ read_spec _ _ _ (DeepCopy range in_ h).2 <$> (DeepCopy range in_ h).1
    = read_spec _ _ _ h <$> in_
  ∧ read_spec _ _ _ (DeepCopy range in_ h).2 <$> in_
    = read_spec _ _ _ h <$> in_.
Proof.
  intros Hok. split; [by intros ->|].
  destruct in_ as [v|]; [|done].
  destruct (Hok v eq_refl) as [Hspec Hrange].
  destruct (DeepCopyInto_keeps_heap range v h Hspec Hrange)
    as (Hsubi & Hsubl & Hsubc).
  destruct Hspec as (Hi & Hl & Hc & Hp).
  unfold ClusterWorkspaceTypeSpec_DeepCopy. cbn [fst snd fmap option_fmap option_map].
  split; f_equal.
  - unfold ClusterWorkspaceTypeSpec_DeepCopyInto in *.
    cbn [fst snd initializers labelMaps typeNames] in *. unfold read_spec.
    cbn [Initializers AdditionalWorkspaceLabels AllowedChildWorkspaceTypes
           AllowedParentWorkspaceTypes ts_other initializers labelMaps typeNames].
    destruct (deepcopy_slice_field zeroInitializer _ _ Hi) as (-> & _ & _).
    destruct (deepcopy_labels_field range _ _ Hl Hrange) as (-> & _ & _).
    destruct (deepcopy_slice_field zeroTypeName _ _ Hc) as (Hreadc & Hsubc' & Hnewc).
    assert (∀ sl, AllowedParentWorkspaceTypes Other v = Some sl ->
                  slice_ok (deepcopy_slice zeroTypeName
                              (AllowedChildWorkspaceTypes Other v)
                              (typeNames _ _ h)).2 sl) as Hp'
      by (intros sl Hsl; eapply slice_ok_weaken; [done|by apply Hp]).
    destruct (deepcopy_slice_field zeroTypeName _ _ Hp') as (-> & Hsubp & _).
    rewrite (read_slice_weaken _ _ _ Hsubc' Hp).
    rewrite (read_slice_weaken _ _ _ Hsubp) by (intros sl Hsl; by apply Hnewc).
    by rewrite Hreadc.
  - unfold read_spec.
    rewrite (read_slice_weaken _ _ _ Hsubi Hi).
    rewrite (read_labels_weaken _ _ _ Hsubl Hl).
    rewrite (read_slice_weaken _ _ _ Hsubc Hc).
    by rewrite (read_slice_weaken _ _ _ Hsubc Hp).
Qed.
End DeepCopyProperties.

(** The copy of the map field keeps every table there was and, when not
    nil, is a table that was not there, whatever the visit yields. *)
Lemma deepcopy_labels_fresh (range : list (string * string))
    (maps : gmap nat (gmap string string)) (field : option nat) :
  maps ⊆ (deepcopy_labels range field maps).2
  ∧ ∀ l, (deepcopy_labels range field maps).1 = Some l -> l ∉ dom maps.
Proof.
  destruct field as [src|]; [|done]. unfold deepcopy_labels. cbn [fst snd].
  rewrite fold_alter_insert. pose proof (is_fresh (dom maps)) as Hfresh.
  split; [|by intros l [= <-]].
  apply insert_subseteq. by apply not_elem_of_dom.
Qed.

Section Sharing.
Variables Initializer TypeName Other : Type.
Variable zeroInitializer : Initializer.
Variable zeroTypeName : TypeName.

Local Abbreviation DeepCopyInto :=
  (ClusterWorkspaceTypeSpec_DeepCopyInto Initializer TypeName Other
     zeroInitializer zeroTypeName).

(** Writing an element through a slice whose array is not the array of
    the field leaves what the field reads. *)
Lemma set_index_elsewhere {A : Type} (arrays arrays' : gmap nat (list A))
    (field : option Slice) (sl : Slice) (i : nat) (x : A) :
  arrays ⊆ arrays' ->
  (∀ src, field = Some src -> slice_ok arrays src) ->
  sl_array sl ∉ dom arrays ->
  read_slice (set_index sl i x arrays') field = read_slice arrays field.
Proof.
  intros Hsub Hok Hfresh.
  rewrite <- (read_slice_weaken arrays arrays' field Hsub Hok).
  destruct field as [src|]; [|done]. cbn. f_equal. unfold set_index.
  apply slice_elems_alter_ne. intros E. apply Hfresh. rewrite E.
  by apply slice_ok_allocated, Hok.
Qed.

(** X15: the struct DeepCopyInto leaves shares no storage with the
    original.  Each slice of it that is not nil is a header over the whole
    of an array that was not in the heap before (offset zero, capacity equal
    to the length), its map a table that was not there, and the two lists of
    type names get different arrays.  So an element written through a slice
    of the copy, or an entry put into its map, leaves what every field of
    the original reads. *)
Theorem DeepCopyInto_shares_nothing (range : list (string * string))
    (v : ClusterWorkspaceTypeSpec Other) (h : Heap Initializer TypeName) :
  spec_ok Initializer TypeName Other h v ->
  let out := (DeepCopyInto range v h).1 in
  let h' := (DeepCopyInto range v h).2 in
  (∀ sl, Initializers Other out = Some sl ->
         (sl_array sl ∉ dom (initializers _ _ h))
         ∧ sl_offset sl = 0%nat ∧ sl_cap sl = sl_len sl)
  ∧ (∀ l, AdditionalWorkspaceLabels Other out = Some l ->
          l ∉ dom (labelMaps _ _ h))
  ∧ (∀ sl, AllowedChildWorkspaceTypes Other out = Some sl
           ∨ AllowedParentWorkspaceTypes Other out = Some sl ->
           (sl_array sl ∉ dom (typeNames _ _ h))
           ∧ sl_offset sl = 0%nat ∧ sl_cap sl = sl_len sl)
  ∧ (∀ c p, AllowedChildWorkspaceTypes Other out = Some c ->
            AllowedParentWorkspaceTypes Other out = Some p ->
            sl_array c ≠ sl_array p)
  ∧ (∀ sl i x, Initializers Other out = Some sl ->
               read_slice (set_index sl i x (initializers _ _ h'))
                 (Initializers Other v)
               = read_slice (initializers _ _ h) (Initializers Other v))
  ∧ (∀ l k x, AdditionalWorkspaceLabels Other out = Some l ->
              read_labels (alter (fun m => <[k := x]> m) l (labelMaps _ _ h'))
                (AdditionalWorkspaceLabels Other v)
              = read_labels (labelMaps _ _ h) (AdditionalWorkspaceLabels Other v))
  ∧ ∀ sl i x, AllowedChildWorkspaceTypes Other out = Some sl
              ∨ AllowedParentWorkspaceTypes Other out = Some sl ->
              read_slice (set_index sl i x (typeNames _ _ h'))
                (AllowedChildWorkspaceTypes Other v)
              = read_slice (typeNames _ _ h) (AllowedChildWorkspaceTypes Other v)
              ∧ read_slice (set_index sl i x (typeNames _ _ h'))
                  (AllowedParentWorkspaceTypes Other v)
                = read_slice (typeNames _ _ h)
                    (AllowedParentWorkspaceTypes Other v).
Proof.
  intros (Hi & Hl & Hc & Hp) out h'. subst out h'.
  unfold ClusterWorkspaceTypeSpec_DeepCopyInto.
  cbn [fst snd Initializers AdditionalWorkspaceLabels AllowedChildWorkspaceTypes
         AllowedParentWorkspaceTypes initializers labelMaps typeNames].
  destruct (deepcopy_slice_field zeroInitializer _ _ Hi) as (_ & Hsubi & Hnewi).
  destruct (deepcopy_labels_fresh range (labelMaps _ _ h)
              (AdditionalWorkspaceLabels Other v)) as (Hsubl & Hnewl).
  destruct (deepcopy_slice_field zeroTypeName _ _ Hc) as (_ & Hsubc & Hnewc).
  assert (∀ sl, AllowedParentWorkspaceTypes Other v = Some sl ->
                slice_ok (deepcopy_slice zeroTypeName
                            (AllowedChildWorkspaceTypes Other v)
                            (typeNames _ _ h)).2 sl) as Hp'
    by (intros sl Hsl; eapply slice_ok_weaken; [done|by apply Hp]).
  destruct (deepcopy_slice_field zeroTypeName _ _ Hp') as (_ & Hsubp & Hnewp).
  assert (∀ sl,
            (deepcopy_slice zeroTypeName (AllowedChildWorkspaceTypes Other v)
               (typeNames _ _ h)).1 = Some sl
            ∨ (deepcopy_slice zeroTypeName (AllowedParentWorkspaceTypes Other v)
                 (deepcopy_slice zeroTypeName (AllowedChildWorkspaceTypes Other v)
                    (typeNames _ _ h)).2).1 = Some sl ->
            (sl_array sl ∉ dom (typeNames _ _ h))
            ∧ sl_offset sl = 0%nat ∧ sl_cap sl = sl_len sl) as Hnames.
  { intros sl [Hsl|Hsl].
    - destruct (Hnewc sl Hsl) as (? & ? & ? & _). done.
    - destruct (Hnewp sl Hsl) as (Hfresh & ? & ? & _). split; [|done].
      intros Hin. apply Hfresh. by apply (subseteq_dom _ _ Hsubc). }
  assert (typeNames _ _ h
          ⊆ (deepcopy_slice zeroTypeName (AllowedParentWorkspaceTypes Other v)
               (deepcopy_slice zeroTypeName (AllowedChildWorkspaceTypes Other v)
                  (typeNames _ _ h)).2).2) as Hsubn by by etrans.
  split; [intros sl Hsl; by destruct (Hnewi sl Hsl) as (? & ? & ? & _)|].
  split; [done|]. split; [done|]. split.
  { intros c p Hchild Hparent E.
    destruct (Hnewc c Hchild) as (_ & _ & _ & Hokc).
    destruct (Hnewp p Hparent) as (Hfresh & _). apply Hfresh. rewrite <- E.
    by apply slice_ok_allocated. }
  split.
  { intros sl i x Hsl. apply set_index_elsewhere; [done|done|].
    by destruct (Hnewi sl Hsl). }
  split.
  { intros l k x Hlbl. rewrite <- (read_labels_weaken _ _ _ Hsubl Hl).
    destruct (AdditionalWorkspaceLabels Other v) as [src|] eqn:Hsrc; [|done].
    cbn. rewrite lookup_alter_ne; [done|]. intros E. subst l.
    apply (Hnewl src Hlbl). apply elem_of_dom. by apply Hl. }
  intros sl i x Hsl. destruct (Hnames sl Hsl) as (Hfresh & _).
  split; by apply set_index_elsewhere.
Qed.
End Sharing.

(** * The further theorems at concrete requests *)

(** A namespace-scoped store and a context without namespace. *)
Lemma resolution_failure_stops_every_operation_witness :
  Get Cases.scoped_store (context tenant "get") "X" None (world [X] [] false)
  = (Returns (Err (ErrNoNamespace gvr)), world [X] [] false)
  ∧ Watch ListOptions convert Cases.scoped_store [("env", "prod")]
      (context tenant "watch") (list_options "") (world [X] [] false)
    = (Returns (Err (ErrNoNamespace gvr)), world [X] [] false).
Proof.
  assert (getClientResource Cases.scoped_store (context tenant "get")
          = Err (ErrNoNamespace gvr)) as Hres by reflexivity.
  destruct (resolution_failure_stops_every_operation ListOptions convert delay
              Cases.scoped_store (context tenant "get") "X" None
              [("env", "prod")] set_tier accept_create accept false
              update_options (ErrNoNamespace gvr) (world [X] [] false) Hres)
    as (Hget & _ & Hlist).
  split; [exact Hget|].
  exact (proj2 (Hlist (list_options "") (list_options "") eq_refl)).
Defined.

(** List options that cannot be converted, in a context without tenant. *)
Lemma conversion_failure_stops_List_and_Watch_witness :
  List ListOptions Cases.refuse (store prod) [("env", "prod")]
    (mkContext 0 (Err (ErrOther "no cluster")) None None) (list_options "")
    (world [X] [] false)
  = (Returns (Err (ErrOther "cannot convert")), world [X] [] false).
Proof.
  assert (Cases.refuse (list_options "") = Err (ErrOther "cannot convert"))
    as Hconv by reflexivity.
  exact (proj1 (conversion_failure_stops_List_and_Watch ListOptions Cases.refuse
                  (store prod) [("env", "prod")]
                  (mkContext 0 (Err (ErrOther "no cluster")) None None)
                  (list_options "") (ErrOther "cannot convert")
                  (world [X] [] false) Hconv)).
Defined.

(** A cluster-scoped store, with and without a namespace in the context. *)
Lemma cluster_scoped_ignores_namespace_witness :
  getClientResource (store prod) (Cases.namespaced tenant "kube-system" "list")
  = Ok (mkResourceInterface "root:org:ws" gvr None)
  ∧ Get (store prod) (context tenant "get") "X" (Some (mkGetOptions ""))
      (world [X] [] false)
    = Get (store prod) (Cases.namespaced tenant "kube-system" "list") "X"
        (Some (mkGetOptions "")) (world [X] [] false).
Proof.
  assert (CreateStrategy_NamespaceScoped (store prod) = false) as Hscope
    by reflexivity.
  assert (ValidClusterFrom (context tenant "get")
          = ValidClusterFrom (Cases.namespaced tenant "kube-system" "list"))
    as Hcluster by reflexivity.
  destruct (cluster_scoped_ignores_namespace ListOptions convert (store prod)
              (context tenant "get")
              (Cases.namespaced tenant "kube-system" "list") "X"
              (Some (mkGetOptions "")) [("env", "prod")] (list_options "")
              (world [X] [] false) Hscope Hcluster)
    as (Hsame & _ & Hget & _).
  split; [by rewrite <- Hsame|].
  apply Hget. intros delegate opts. reflexivity.
Defined.

(** Get of X and of Y under the scope env=prod. *)
Lemma Get_returns_only_scoped_objects_witness :
  (Get (store prod) (context tenant "get") "X" (Some (mkGetOptions ""))
     (world [X; Y] [] false)).1 = Returns (Ok X)
  ∧ (Get (store prod) (context tenant "get") "Y" (Some (mkGetOptions ""))
       (world [X; Y] [] false)).1 ≠ Returns (Ok Y).
Proof.
  assert (getClientResource (store prod) (context tenant "get")
          = Ok (mkResourceInterface "root:org:ws" gvr None)) as Hres
    by reflexivity.
  split.
  - refine (proj2 (proj1 (Get_returns_only_scoped_objects (store prod)
                            (context tenant "get") "X" (mkGetOptions "") _
                            (world [X; Y] [] false) Hres) X) _).
    split; vm_compute; reflexivity.
  - intros Hget.
    apply (proj1 (proj1 (Get_returns_only_scoped_objects (store prod)
                           (context tenant "get") "Y" (mkGetOptions "") _
                           (world [X; Y] [] false) Hres) Y)) in Hget.
    destruct Hget as [_ Hscope]. vm_compute in Hscope. discriminate.
Defined.

(** A list with a field selector and a resource version. *)
Lemma List_and_Watch_forward_verbatim_witness :
  ∃ sent : ListOptions,
    FieldSelector sent = "metadata.name=X"
    ∧ lo_ResourceVersion sent = "42"
    ∧ (List ListOptions convert (store prod) [("env", "prod")]
         (context tenant "list") (mkListOptions "" "metadata.name=X" "42")
         (world [X] [] false)).1
      = Returns (dyn_List (context tenant "list")
                   (mkResourceInterface "root:org:ws" gvr None) sent
                   (env (world [X] [] false))).1.
Proof.
  assert (convert (mkListOptions "" "metadata.name=X" "42")
          = Ok (mkListOptions "" "metadata.name=X" "42")) as Hconv
    by reflexivity.
  assert (getClientResource (store prod) (context tenant "list")
          = Ok (mkResourceInterface "root:org:ws" gvr None)) as Hres
    by reflexivity.
  destruct (List_and_Watch_forward_verbatim ListOptions convert (store prod)
              [("env", "prod")] (context tenant "list")
              (mkListOptions "" "metadata.name=X" "42")
              (mkListOptions "" "metadata.name=X" "42") _ (world [X] [] false)
              Hconv Hres) as (sent & Hfield & Hversion & Hlist & _).
  exists sent. split; [exact Hfield|]. split; [exact Hversion | exact Hlist].
Defined.

(** A patch of X while a rival rewrites it twice. *)
Lemma Update_writes_only_validated_candidates_witness :
  ∃ evs,
    calls (Update delay (store prod) (context tenant "patch") "X" set_tier
             accept_create accept false update_options
             (world [X] [object "X" "prod" "2"; object "X" "prod" "3"] false)).2
    = evs
    ∧ writes_validated (store prod) set_tier accept
        (mkResourceInterface "root:org:ws" gvr None) "X" evs.
Proof.
  assert (getClientResource (store prod) (context tenant "patch")
          = Ok (mkResourceInterface "root:org:ws" gvr None)) as Hres
    by reflexivity.
  destruct (Update_writes_only_validated_candidates delay (store prod)
              (context tenant "patch") "X" set_tier accept_create accept false
              update_options _
              (world [X] [object "X" "prod" "2"; object "X" "prod" "3"] false)
              Hres) as (evs & Hevs & Hvalid).
  exists evs. split; [exact Hevs | exact Hvalid].
Defined.

(** A full update of X under a strategy that rejects every update. *)
Lemma Update_full_rejects_without_writing_witness :
  (Update delay Cases.strict_store (context tenant "update") "X" set_tier
     accept_create accept false update_options (world [X] [] false)).1
  = Returns (mkUpdateReturn None false
               (Some (StatusError StatusReasonInvalid "apps" "Deployment" "X"
                        [mkFieldError "spec" "field is immutable"]))).
Proof.
  assert (getClientResource Cases.strict_store (context tenant "update")
          = Ok (mkResourceInterface "root:org:ws" gvr None)) as Hres
    by reflexivity.
  assert (∀ requestInfo,
            RequestInfoFrom (context tenant "update") = Some requestInfo ->
            Verb requestInfo ≠ "patch") as Hverb.
  { intros requestInfo [= <-]. vm_compute. discriminate. }
  assert ((dyn_Get (context tenant "update")
             (mkResourceInterface "root:org:ws" gvr None) "X"
             (mkGetOptions "") (subResources Cases.strict_store)
             (env (world [X] [] false))).1 = Ok X) as Hread
    by (vm_compute; reflexivity).
  destruct (Update_full_rejects_without_writing delay Cases.strict_store
              (context tenant "update") "X" set_tier accept_create accept false
              update_options _ X (world [X] [] false) Hres Hverb Hread)
    as (_ & Hscoped).
  destruct (Hscoped ltac:(vm_compute; reflexivity)) as (_ & _ & Hcandidate).
  destruct (Hcandidate _ eq_refl) as (Hinvalid & _).
  rewrite (Hinvalid ltac:(vm_compute; discriminate)). reflexivity.
Defined.

(** The scope env=prod against X and against Y. *)
Lemma matches_iff_scope_included_witness :
  matches prod X = true ∧ matches prod Y ≠ true.
Proof.
  assert (∀ k v, ({[ "env" := "prod" ]} : gmap string string) !! k = Some v ->
                 v ≠ "") as Hvalues.
  { intros k v [_ <-]%lookup_singleton_Some. discriminate. }
  split.
  - apply (proj2 (matches_iff_scope_included _ X Hvalues)).
    apply map_singleton_subseteq_l. vm_compute. reflexivity.
  - intros Hmatch.
    apply (proj1 (matches_iff_scope_included _ Y Hvalues)) in Hmatch.
    apply map_singleton_subseteq_l in Hmatch. vm_compute in Hmatch.
    discriminate.
Defined.

(** A scope of two pairs, visited in the one order and in the other. *)
Lemma matches_order_irrelevant_witness :
  matches_in (Some {[ "env" := "prod"; "tier" := "web" ]})
    [("env", "prod"); ("tier", "web")] Y
  = matches_in (Some {[ "env" := "prod"; "tier" := "web" ]})
      [("tier", "web"); ("env", "prod")] Y.
Proof.
  apply matches_order_irrelevant.
  - vm_compute. first [reflexivity | apply perm_swap].
  - vm_compute. first [reflexivity | apply perm_swap].
Defined.

(** An empty scope is not nil, and still nothing is sent for it. *)
Lemma scopedSelector_empty_iff_witness :
  scopedSelector (store (Some ∅)) [] "" = ""
  ∧ scopedSelector (store prod) [("env", "prod")] "" ≠ "".
Proof.
  assert (range_of (labelSelector (store (Some ∅))) []) as Hempty
    by (vm_compute; reflexivity).
  assert (range_of (labelSelector (store prod)) [("env", "prod")]) as Hprod
    by (vm_compute; reflexivity).
  split.
  - apply (proj2 (scopedSelector_empty_iff (store (Some ∅)) [] "" Hempty)).
    split; reflexivity.
  - intros Hsent.
    apply (proj1 (scopedSelector_empty_iff (store prod) [("env", "prod")] ""
                    Hprod)) in Hsent.
    destruct Hsent as [_ Hsize]. vm_compute in Hsize. discriminate.
Defined.

(** The first watch of a process, and then the close of the stop channel:
    its goroutine is ready to cancel. *)
Lemma stop_signal_reaches_every_watch_witness :
  derived_done Cases.stopped 0 = true ∨ ∃ r', waiter_step 0 Cases.stopped r'.
Proof.
  assert (reachable initial_runtime (rt (world [X] [] false))) as Hbefore
    by apply rtc_refl.
  assert (reachable
            (rt (Watch ListOptions convert (store prod) [("env", "prod")]
                   (context tenant "watch") (list_options "")
                   (world [X] [] false)).2)
            Cases.stopped) as Hafter.
  { apply rtc_once.
    exact (step_close (stopWatchesCh (store prod)) (rt Cases.watched)). }
  destruct (stop_signal_reaches_every_watch ListOptions convert (store prod)
              [("env", "prod")] (context tenant "watch") (list_options "")
              (world [X] [] false) Cases.stopped Hbefore Hafter) as [_ Hall].
  destruct (Hall 0%nat (mkWaiter (stopWatchesCh (store prod)) 0 0 Selecting)
              eq_refl) as (_ & _ & Hstop).
  apply Hstop. cbn. apply elem_of_union_l. by apply elem_of_singleton_2.
Defined.

(** One goroutine whose stop channel is closed: it cancels and ends. *)
Lemma waiter_moves_once_witness :
  waiter_step 0
    (mkRuntime [mkDerivedContext 0 false] ∅ {[1%nat]}
       [mkWaiter 1 0 0 Selecting])
    (waiter_exits 0
       (cancelFn 0
          (mkRuntime [mkDerivedContext 0 false] ∅ {[1%nat]}
             [mkWaiter 1 0 0 Selecting])))
  ∧ ¬ ∃ r3,
        waiter_step 0
          (waiter_exits 0
             (cancelFn 0
                (mkRuntime [mkDerivedContext 0 false] ∅ {[1%nat]}
                   [mkWaiter 1 0 0 Selecting])))
          r3.
Proof.
  assert (waiter_step 0
            (mkRuntime [mkDerivedContext 0 false] ∅ {[1%nat]}
               [mkWaiter 1 0 0 Selecting])
            (waiter_exits 0
               (cancelFn 0
                  (mkRuntime [mkDerivedContext 0 false] ∅ {[1%nat]}
                     [mkWaiter 1 0 0 Selecting])))) as Hmove.
  { apply (waiter_stop 0 (mkWaiter 1 0 0 Selecting)
             (mkRuntime [mkDerivedContext 0 false] ∅ {[1%nat]}
                [mkWaiter 1 0 0 Selecting]) eq_refl eq_refl).
    cbn. by apply elem_of_singleton_2. }
  split; [exact Hmove|].
  exact (waiter_moves_once 0 _ _ _ Hmove (rtc_refl _ _)).
Defined.

Lemma sample_spec_ok : spec_ok string string string sample_heap sample_spec.
Proof.
  split; [|split; [|split]].
  - intros sl [= <-]. exists ["a"; "b"; "c"]. split; [reflexivity|cbn; lia].
  - intros l [= <-]. exists {[ "team" := "core" ]}. reflexivity.
  - intros sl [=].
  - intros sl [= <-]. exists []. split; [reflexivity|cbn; lia].
Qed.

(** The sample struct: two initializers out of an array of three, one
    label, nil child types, an empty list of parent types. *)
Lemma DeepCopy_reads_the_same_witness :
  read_spec string string string
    (ClusterWorkspaceTypeSpec_DeepCopy string string string "" ""
       [("team", "core")] (Some sample_spec) sample_heap).2
  <$> (ClusterWorkspaceTypeSpec_DeepCopy string string string "" ""
         [("team", "core")] (Some sample_spec) sample_heap).1
  = Some (read_spec string string string sample_heap sample_spec).
Proof.
  refine (proj1 (proj2 (DeepCopy_reads_the_same string string string "" ""
                          [("team", "core")] (Some sample_spec) sample_heap
                          _))).
  intros v [= <-]. split; [exact sample_spec_ok|].
  intros l m [= <-] [= <-]. vm_compute. reflexivity.
Defined.

(** The copy of the sample struct: a write through its initializers is
    not seen by the original. *)
Lemma DeepCopyInto_shares_nothing_witness :
  read_slice
    (set_index (mkSlice 8 0 2 2) 0 "z"
       (initializers string string
          (ClusterWorkspaceTypeSpec_DeepCopyInto string string string "" ""
             [("team", "core")] sample_spec sample_heap).2))
    (Initializers string sample_spec)
  = read_slice (initializers string string sample_heap)
      (Initializers string sample_spec).
Proof.
  destruct (DeepCopyInto_shares_nothing string string string "" ""
              [("team", "core")] sample_spec sample_heap sample_spec_ok)
    as (_ & _ & _ & _ & Hwrite & _).
  apply Hwrite. vm_compute. reflexivity.
Defined.
